(** * Voting System backend (PythonAPI/main.py): model and verification

    The FastAPI handlers of [main.py] are embedded as functions over an
    explicit database state.  Tables are lists of rows in insertion order,
    primary keys come from per-table sequences, and the declared constraints
    (primary keys, [unique=True], the [UniqueConstraint] of [Vote], foreign
    keys, [nullable=False], [String(n)]) are checked when a handler flushes
    its unit of work at [db.commit()].  The libraries behind the handlers
    (python-jose, passlib's bcrypt, the ORDER BY of the SQL engine) are
    interfaces with laws.

    A [datetime] is an integer number of microseconds since the epoch and a
    [timedelta] an integer number of microseconds.  A [str] is the [string]
    of its UTF-8 bytes. *)

From stdpp Require Import base decidable option list strings gmap sorting.
From Stdlib Require Import ZArith Lia Ascii.

Local Open Scope Z_scope.

(** ** Exceptions and outcomes *)

(** The exceptions a handler can end with.  [HTTPException] is the only one
    the handlers raise themselves; the others come out of SQLAlchemy
    ([IntegrityError], [DataError]), python-jose ([JWTError]), passlib
    ([UnknownHashError], and [ValueError] for its subclasses
    [PasswordValueError] and [MalformedHashError]), psycopg2 ([ValueError]),
    pydantic ([ValidationError]) and the interpreter ([AttributeError],
    [OverflowError]). *)
Inductive Exception : Type :=
| HTTPException (status_code : Z) (detail : string)
| IntegrityError
| DataError
| JWTError
| UnknownHashError
| AttributeError
| ValidationError
| ValueError
| OverflowError.

Inductive Outcome (A : Type) : Type :=
| Return (a : A)
| Raise (e : Exception).
Arguments Return {A} a.
Arguments Raise {A} e.

#[global] Instance Exception_eq_dec : EqDecision Exception.
Proof. solve_decision. Defined.

#[global] Instance Outcome_eq_dec `{EqDecision A} : EqDecision (Outcome A).
Proof. solve_decision. Defined.

Definition is_Return {A} (o : Outcome A) : bool :=
  match o with Return _ => true | Raise _ => false end.

(** ** Database models (lines 39-81) *)

Module User.
Record t : Type := mk {
  id : Z;
  username : string;
  email : string;
  password_hash : string;
  created_at : Z;
  updated_at : Z
}.
#[global] Instance eq_dec : EqDecision t.
Proof. solve_decision. Defined.
End User.

Module Feature.
Record t : Type := mk {
  id : Z;
  title : string;
  description : string;
  user_id : Z;
  vote_count : Z;
  status : string;
  created_at : Z;
  updated_at : Z
}.
#[global] Instance eq_dec : EqDecision t.
Proof. solve_decision. Defined.
End Feature.

Module Vote.
Record t : Type := mk {
  id : Z;
  user_id : Z;
  feature_id : Z;
  vote_type : Z;
  created_at : Z
}.
#[global] Instance eq_dec : EqDecision t.
Proof. solve_decision. Defined.
End Vote.

(** The database behind [SessionLocal]: the three tables and the sequences
    that feed their integer primary keys. *)
Record Database : Type := mkDatabase {
  users : list User.t;
  features : list Feature.t;
  votes : list Vote.t;
  users_id_seq : Z;
  features_id_seq : Z;
  votes_id_seq : Z
}.

Definition empty_db : Database := mkDatabase [] [] [] 1 1 1.

(** ** Strings on their way to the database

    psycopg2 writes every bound [str] into the statement as a quoted literal
    and refuses one that holds the character NUL with a [ValueError], before
    anything is sent.  A column declared [String(n)] is a [varchar(n)]: the
    engine counts characters, not bytes; it refuses a longer value with a
    [DataError] unless all the characters beyond the n-th are spaces, and
    then stores the first [n] characters. *)

Fixpoint holds_NUL (s : string) : bool :=
  match s with
  | EmptyString => false
  | String c r => bool_decide (c = "000"%char) || holds_NUL r
  end.

(** The bytes 10xxxxxx continue a character; every other byte starts one. *)
Definition continuation (c : ascii) : bool :=
  bool_decide (128 ≤ nat_of_ascii c < 192)%nat.

Fixpoint characters (s : string) : nat :=
  match s with
  | EmptyString => 0%nat
  | String c r => ((if continuation c then 0 else 1) + characters r)%nat
  end.

Definition too_long (s : string) (n : nat) : bool :=
  bool_decide (n < characters s)%nat.

(** The first [n] characters of a string, and what follows them. *)
Fixpoint split_characters (n : nat) (s : string) : string * string :=
  match s with
  | EmptyString => (EmptyString, EmptyString)
  | String c r =>
      if continuation c then
        let '(taken, rest) := split_characters n r in (String c taken, rest)
      else
        match n with
        | O => (EmptyString, s)
        | S m => let '(taken, rest) := split_characters m r in (String c taken, rest)
        end
  end.

Fixpoint only_spaces (s : string) : bool :=
  match s with
  | EmptyString => true
  | String c r => bool_decide (c = " "%char) && only_spaces r
  end.

(** What a [varchar(n)] column stores for a value, [None] when it refuses. *)
Definition varchar (n : nat) (s : string) : option string :=
  if too_long s n then
    let '(stored, excess) := split_characters n s in
    if only_spaces excess then Some stored else None
  else Some s.

(** ** Queries *)

(** [db.query(User).filter(User.username == username).first()] *)
Definition user_by_username (db : Database) (name : string) : option User.t :=
  head (filter (λ u, User.username u = name) (users db)).

(** [db.query(User).filter((User.username == n) | (User.email == e)).first()] *)
Definition user_by_username_or_email (db : Database) (name mail : string)
  : option User.t :=
  head (filter (λ u, User.username u = name ∨ User.email u = mail) (users db)).

(** The row behind a relationship attribute such as [feature.user]. *)
Definition user_by_id (db : Database) (uid : Z) : option User.t :=
  head (filter (λ u, User.id u = uid) (users db)).

(** [db.query(Feature).filter(Feature.id == feature_id).first()] *)
Definition feature_by_id (db : Database) (fid : Z) : option Feature.t :=
  head (filter (λ f, Feature.id f = fid) (features db)).

(** [db.query(Feature).filter(Feature.id == fid, Feature.user_id == uid).first()] *)
Definition feature_by_id_and_owner (db : Database) (fid uid : Z)
  : option Feature.t :=
  head (filter (λ f, Feature.id f = fid ∧ Feature.user_id f = uid) (features db)).

(** [db.query(Vote).filter(Vote.user_id == uid, Vote.feature_id == fid).first()] *)
Definition vote_by_user_and_feature (db : Database) (uid fid : Z)
  : option Vote.t :=
  head (filter (λ v, Vote.user_id v = uid ∧ Vote.feature_id v = fid) (votes db)).

(** The Vote rows that reference a feature, and their number: the derived
    vote count of the feature. *)
Definition votes_of_feature (db : Database) (fid : Z) : list Vote.t :=
  filter (λ v, Vote.feature_id v = fid) (votes db).

Definition count_votes (db : Database) (fid : Z) : Z :=
  Z.of_nat (length (votes_of_feature db fid)).

(** Existence check for the pair (user, feature). *)
Definition has_voted (db : Database) (uid fid : Z) : bool :=
  bool_decide (is_Some (vote_by_user_and_feature db uid fid)).

(** ** Units of work against the database

    [db.add(row); db.commit()] and [db.delete(row); db.commit()].  A flush
    that raises leaves the tables as they were.  A value the driver cannot
    bind and a value a column refuses end the INSERT before a row is formed;
    a row that breaks a key has drawn its id, and the value drawn from the
    table's sequence is spent. *)

Definition Handler (A : Type) : Type := Database → Outcome A * Database.

#[global] Instance Handler_ret : MRet Handler :=
  λ A a db, (Return a, db).

#[global] Instance Handler_bind : MBind Handler :=
  λ A B k m db,
    match m db with
    | (Return a, db') => k a db'
    | (Raise e, db') => (Raise e, db')
    end.

Definition raise {A} (e : Exception) : Handler A := λ db, (Raise e, db).

(** A computation that does not touch the database. *)
Definition lift {A} (o : Outcome A) : Handler A := λ db, (o, db).

(** A read-only query. *)
Definition query {A} (q : Database → A) : Handler A := λ db, (Return (q db), db).

Definition with_users (db : Database) (us : list User.t) (seq : Z) : Database :=
  mkDatabase us (features db) (votes db) seq (features_id_seq db) (votes_id_seq db).

Definition with_features (db : Database) (fs : list Feature.t) (seq : Z) : Database :=
  mkDatabase (users db) fs (votes db) (users_id_seq db) seq (votes_id_seq db).

Definition with_votes (db : Database) (vs : list Vote.t) (seq : Z) : Database :=
  mkDatabase (users db) (features db) vs (users_id_seq db) (features_id_seq db) seq.

(** A statement whose bound strings are [params]: psycopg2 adapts them
    before the statement runs. *)
Definition bound {A} (params : list string) (statement : Handler A) : Handler A :=
  λ db, if existsb holds_NUL params then (Raise ValueError, db) else statement db.

(** INSERT INTO users: primary key, [String(50)], [String(100)],
    [String(255)], unique username, unique email. *)
Definition insert_user (now : Z) (name mail hash : string) : Handler User.t :=
  bound [name; mail; hash] (λ db,
    match varchar 50 name, varchar 100 mail, varchar 255 hash with
    | Some name, Some mail, Some hash =>
        let uid := users_id_seq db in
        let spent := with_users db (users db) (uid + 1) in
        if bool_decide (Exists (λ u, User.id u = uid ∨ User.username u = name
                                     ∨ User.email u = mail) (users db)) then
          (Raise IntegrityError, spent)
        else
          let row := User.mk uid name mail hash now now in
          (Return row, with_users db (users db ++ [row]) (uid + 1))
    | _, _, _ => (Raise DataError, db)
    end).

(** The literal ["open"], the default of [Feature.status]. *)
Definition status_open : string := "open".

(** INSERT INTO features: primary key, [String(200)], foreign key to users;
    [vote_count] and [status] take their column defaults [0] and ["open"]. *)
Definition insert_feature (now : Z) (ttl dsc : string) (uid : Z)
  : Handler Feature.t :=
  bound [ttl; dsc] (λ db,
    match varchar 200 ttl with
    | Some ttl =>
        let fid := features_id_seq db in
        let spent := with_features db (features db) (fid + 1) in
        if bool_decide (Exists (λ f, Feature.id f = fid) (features db))
           || negb (bool_decide (is_Some (user_by_id db uid))) then
          (Raise IntegrityError, spent)
        else
          let row := Feature.mk fid ttl dsc uid 0 status_open now now in
          (Return row, with_features db (features db ++ [row]) (fid + 1))
    | None => (Raise DataError, db)
    end).

(** INSERT INTO votes: primary key, foreign keys to users and features, and
    [UniqueConstraint('user_id', 'feature_id')]. *)
Definition insert_vote (now : Z) (uid fid vtype : Z) : Handler Vote.t :=
  λ db,
    let vid := votes_id_seq db in
    let spent := with_votes db (votes db) (vid + 1) in
    if bool_decide (Exists (λ v, Vote.id v = vid) (votes db))
       || negb (bool_decide (is_Some (user_by_id db uid)))
       || negb (bool_decide (is_Some (feature_by_id db fid)))
       || bool_decide (is_Some (vote_by_user_and_feature db uid fid)) then
      (Raise IntegrityError, spent)
    else
      let row := Vote.mk vid uid fid vtype now in
      (Return row, with_votes db (votes db ++ [row]) (vid + 1)).

(** DELETE FROM votes WHERE id = v.id *)
Definition delete_vote (v : Vote.t) : Handler unit :=
  λ db,
    (Return (), with_votes db (filter (λ w, Vote.id w ≠ Vote.id v) (votes db))
                           (votes_id_seq db)).

(** The flush of [db.delete(feature)].  [Feature.votes] is a plain
    [relationship] (no delete cascade) and [Vote.feature_id] is a foreign key
    declared [nullable=False] with no ON DELETE rule: while a Vote row still
    references the feature neither blanking the reference nor removing the
    feature passes the constraints, and the flush raises. *)
Definition delete_feature_row (f : Feature.t) : Handler unit :=
  λ db,
    if bool_decide (votes_of_feature db (Feature.id f) ≠ []) then
      (Raise IntegrityError, db)
    else
      (Return (), with_features db
                    (filter (λ g, Feature.id g ≠ Feature.id f) (features db))
                    (features_id_seq db)).

(** ** Pydantic models (lines 85-127) and handler results *)

Module UserCreate.
Record t : Type := mk { username : string; email : string; password : string }.
End UserCreate.

Module UserResponse.
Record t : Type := mk { id : Z; username : string; email : string; created_at : Z }.
#[global] Instance eq_dec : EqDecision t.
Proof. solve_decision. Defined.
End UserResponse.

Module FeatureCreate.
Record t : Type := mk { title : string; description : string }.
End FeatureCreate.

Module FeatureResponse.
Record t : Type := mk {
  id : Z;
  title : string;
  description : string;
  user_id : Z;
  username : string;
  vote_count : Z;
  status : string;
  created_at : Z;
  user_voted : bool
}.
#[global] Instance eq_dec : EqDecision t.
Proof. solve_decision. Defined.
End FeatureResponse.

Module Token.
Record t : Type := mk { access_token : string; token_type : string }.
End Token.

(** The dictionary [{"message": ..., "voted": ...}] returned by [vote_feature]. *)
Module VoteResult.
Record t : Type := mk { message : string; voted : bool }.
#[global] Instance eq_dec : EqDecision t.
Proof. solve_decision. Defined.
End VoteResult.

(** ** The libraries the handlers call

    [main.py] imports its cryptography and its SQL engine.  Each library is an
    interface here, with the part of its documented contract that the
    handlers rely on stated as laws; the handlers are written against the
    interface. *)

(** JSON values of a token's claims. *)
Inductive JSON : Type :=
| JStr (s : string)
| JNum (n : Z).

#[global] Instance JSON_eq_dec : EqDecision JSON.
Proof. solve_decision. Defined.

(** Process configuration: [SECRET_KEY = os.getenv("SECRET_KEY", ...)]. *)
Class Config : Type := { SECRET_KEY : string }.

Definition ALGORITHM : string := "HS256".
Definition ACCESS_TOKEN_EXPIRE_MINUTES : Z := 30.

(** python-jose.  [jwt_encode claims key algorithm] is [jwt.encode];
    [jws_verify token key algorithms] is the first half of [jwt.decode]: the
    claims of a token whose structure parses and whose signature verifies
    under [key], [None] otherwise; [validate_claims claims now] is its second
    half, the validation of the registered claims at [now] (whole seconds
    since the epoch). *)
Class Jose : Type := {
  jwt_encode : gmap string JSON → string → string → string;
  jws_verify : string → string → list string → option (gmap string JSON);
  validate_claims : gmap string JSON → Z → bool
}.

(** [jwt.decode(token, key, algorithms=...)]: every failure is a [JWTError]
    ([ExpiredSignatureError] and [JWTClaimsError] are subclasses of it). *)
Definition jwt_decode `{J : Jose} (token key : string) (algorithms : list string)
    (now : Z) : Outcome (gmap string JSON) :=
  match jws_verify token key algorithms with
  | None => Raise JWTError
  | Some claims =>
      if validate_claims claims now then Return claims else Raise JWTError
  end.

Class JoseLaws (J : Jose) : Prop := {
  (** a token signed with a key verifies under that key *)
  jws_verify_encode : ∀ claims key alg algs,
    alg ∈ algs → jws_verify (jwt_encode claims key alg) key algs = Some claims;
  (** an [exp] claim in the past is rejected *)
  validate_claims_exp : ∀ claims now e,
    claims !! "exp" = Some (JNum e) → e < now → validate_claims claims now = false;
  (** a [sub] claim that is not a string is rejected *)
  validate_claims_sub : ∀ claims now n,
    claims !! "sub" = Some (JNum n) → validate_claims claims now = false;
  (** claims that hold only a string [sub] and an [exp] not yet passed are valid *)
  validate_claims_sub_exp : ∀ name e now,
    now ≤ e →
    validate_claims (<["exp" := JNum e]> {["sub" := JStr name]}) now = true
}.

(** passlib's bcrypt handler: [bcrypt_hash salt secret] is the digest of a
    secret the handler accepts, under a salt the library draws;
    [bcrypt_verify secret digest] is the handler's [verify], which raises a
    [ValueError] on a digest it cannot parse and on a secret it refuses. *)
Class Bcrypt : Type := {
  bcrypt_hash : string → string → string;
  bcrypt_verify : string → string → Outcome bool
}.

(** [bcrypt.identify]: the digest starts with one of the scheme's identifiers. *)
Definition bcrypt_identify (digest : string) : bool :=
  existsb (λ ident, String.prefix ident digest)
          ["$2$"; "$2a$"; "$2x$"; "$2y$"; "$2b$"]%string.

(** The secrets the handler accepts: at most [MAX_PASSWORD_SIZE = 4096]
    characters ([PasswordSizeError] otherwise) and no NUL
    ([PasswordValueError] otherwise); both errors are [ValueError]s. *)
Definition bcrypt_accepts (secret : string) : bool :=
  negb (holds_NUL secret) && bool_decide (characters secret ≤ 4096)%nat.

(** The digests the handler parses ([bcrypt.from_string]): an identifier
    other than [$2x$], a cost of two digits between 04 and 31, a [$], and 53
    characters of the bcrypt alphabet, 22 of salt and 31 of checksum. *)
Definition bcrypt64 : string :=
  "./ABCDEFGHIJKLMNOPQRSTUVWXYZabcdefghijklmnopqrstuvwxyz0123456789".

Fixpoint occurs (c : ascii) (s : string) : bool :=
  match s with
  | EmptyString => false
  | String d r => bool_decide (c = d) || occurs c r
  end.

Fixpoint all_in (alphabet s : string) : bool :=
  match s with
  | EmptyString => true
  | String c r => occurs c alphabet && all_in alphabet r
  end.

Fixpoint strip_prefix (p s : string) : option string :=
  match p, s with
  | EmptyString, _ => Some s
  | String a p, String b s => if bool_decide (a = b) then strip_prefix p s else None
  | String _ _, EmptyString => None
  end.

Definition bcrypt_cost_and_data (tail : string) : bool :=
  match tail with
  | String d1 (String d2 (String sep data)) =>
      match Ascii.is_nat d1, Ascii.is_nat d2 with
      | Some m, Some n =>
          bool_decide (4 ≤ 10 * m + n ≤ 31)%nat
          && bool_decide (sep = "$"%char)
          && bool_decide (String.length data = 53%nat)
          && all_in bcrypt64 data
      | _, _ => false
      end
  | _ => false
  end.

Definition bcrypt_well_formed (digest : string) : bool :=
  existsb (λ ident, match strip_prefix ident digest with
                    | Some tail => bcrypt_cost_and_data tail
                    | None => false
                    end)
          ["$2$"; "$2a$"; "$2y$"; "$2b$"]%string.

(** [pwd_context = CryptContext(schemes=["bcrypt"], deprecated="auto")] *)
Definition pwd_context_verify `{B : Bcrypt} (secret digest : string) : Outcome bool :=
  if bcrypt_identify digest then bcrypt_verify secret digest
  else Raise UnknownHashError.

Definition pwd_context_hash `{B : Bcrypt} (salt secret : string) : Outcome string :=
  if bcrypt_accepts secret then Return (bcrypt_hash salt secret)
  else Raise ValueError.

(** The SQL engine's ORDER BY ... DESC over the rows of [features]: the rows
    sorted by a key, largest first.  The order among rows of equal key is the
    engine's. *)
Class SqlEngine : Type := {
  order_by_desc : (Feature.t → Z) → list Feature.t → list Feature.t
}.

Definition desc (key : Feature.t → Z) (f g : Feature.t) : Prop := key g ≤ key f.

#[global] Instance desc_dec key f g : Decision (desc key f g).
Proof. unfold desc. apply _. Defined.

Class SqlEngineLaws (E : SqlEngine) : Prop := {
  order_by_desc_perm : ∀ key rows, order_by_desc key rows ≡ₚ rows;
  order_by_desc_sorted : ∀ key rows, StronglySorted (desc key) (order_by_desc key rows)
}.

(** ** Authentication functions (lines 153-196) *)

Section Handlers.
Context `{C : Config} `{J : Jose} `{B : Bcrypt} `{E : SqlEngine}.

Definition verify_password (plain_password hashed_password : string)
  : Outcome bool :=
  pwd_context_verify plain_password hashed_password.

(** [pwd_context.hash] salts every call; the salt is an input here. *)
Definition get_password_hash (salt password : string) : Outcome string :=
  pwd_context_hash salt password.

(** [False] of the source is [None].  The query binds [username]. *)
Definition authenticate_user (db : Database) (username password : string)
  : Outcome (option User.t) :=
  if holds_NUL username then Raise ValueError
  else
    match user_by_username db username with
    | None => Return None
    | Some user =>
        match verify_password password (User.password_hash user) with
        | Raise e => Raise e
        | Return true => Return (Some user)
        | Return false => Return None
        end
    end.

Definition minutes (n : Z) : Z := n * 60 * 1000000.

(** [timegm(d.utctimetuple())]: whole seconds, microseconds dropped. *)
Definition timegm (d : Z) : Z := d / 1000000.

(** [datetime.min] and [datetime.max]: the first microsecond of year 1 and
    the last of year 9999. *)
Definition datetime_min : Z := -62135596800000000.
Definition datetime_max : Z := 253402300799999999.

(** [d + delta] on a [datetime]: an [OverflowError] outside the range. *)
Definition datetime_add (d delta : Z) : Outcome Z :=
  if bool_decide (datetime_min ≤ d + delta ≤ datetime_max) then Return (d + delta)
  else Raise OverflowError.

(** [utcnow] is the clock read by [datetime.utcnow()].  [if expires_delta:]
    is false for [None] and for a zero [timedelta].  [jwt.encode] stores the
    [exp] datetime as whole seconds since the epoch. *)
Definition create_access_token (utcnow : Z) (data : gmap string JSON)
    (expires_delta : option Z) : Outcome string :=
  let to_encode := data in
  let expire :=
    match expires_delta with
    | Some delta => if bool_decide (delta ≠ 0) then datetime_add utcnow delta
                    else datetime_add utcnow (minutes 15)
    | None => datetime_add utcnow (minutes 15)
    end in
  match expire with
  | Raise e => Raise e
  | Return expire =>
      let to_encode := <["exp" := JNum (timegm expire)]> to_encode in
      Return (jwt_encode to_encode SECRET_KEY ALGORITHM)
  end.

Definition credentials_exception : Exception :=
  HTTPException 401 "Could not validate credentials".

(** [except JWTError] catches what [jwt.decode] raises and the
    [credentials_exception] raised inside the [try] (a [HTTPException], which
    passes through).  [TokenData(username=...)] accepts a string and refuses
    an integer with a [ValidationError].  The lookup of line 193 is taken
    for a subject that the driver can bind. *)
Definition get_current_user (utcnow : Z) (token : string) (db : Database)
  : Outcome User.t :=
  match jwt_decode token SECRET_KEY [ALGORITHM] (timegm utcnow) with
  | Raise JWTError => Raise credentials_exception
  | Raise e => Raise e
  | Return payload =>
      match payload !! "sub" with
      | None => Raise credentials_exception
      | Some (JNum _) => Raise ValidationError
      | Some (JStr username) =>
          match user_by_username db username with
          | None => Raise credentials_exception
          | Some user => Return user
          end
      end
  end.

(** ** API endpoints (lines 206-380)

    An endpoint that depends on [get_current_user] takes the resolved
    [current_user]; [now] is the database clock behind [func.now()]. *)

Definition to_user_response (u : User.t) : UserResponse.t :=
  UserResponse.mk (User.id u) (User.username u) (User.email u) (User.created_at u).

Definition register (now : Z) (salt : string) (user : UserCreate.t)
  : Handler UserResponse.t :=
  db_user ← bound [UserCreate.username user; UserCreate.email user]
              (query (λ db, user_by_username_or_email db
                              (UserCreate.username user) (UserCreate.email user)));
  match db_user with
  | Some _ => raise (HTTPException 400 "Username or email already registered")
  | None =>
      hashed_password ← lift (get_password_hash salt (UserCreate.password user));
      db_user ← insert_user now (UserCreate.username user) (UserCreate.email user)
                  hashed_password;
      mret (to_user_response db_user)
  end.

Definition login (utcnow : Z) (username password : string) (db : Database)
  : Outcome Token.t :=
  match authenticate_user db username password with
  | Raise e => Raise e
  | Return None => Raise (HTTPException 401 "Incorrect username or password")
  | Return (Some user) =>
      let access_token_expires := minutes ACCESS_TOKEN_EXPIRE_MINUTES in
      match create_access_token utcnow {["sub" := JStr (User.username user)]}
                                (Some access_token_expires) with
      | Raise e => Raise e
      | Return access_token => Return (Token.mk access_token "bearer")
      end
  end.

Definition create_feature (now : Z) (feature : FeatureCreate.t)
    (current_user : User.t) : Handler FeatureResponse.t :=
  db_feature ← insert_feature now (FeatureCreate.title feature)
                 (FeatureCreate.description feature) (User.id current_user);
  mret (FeatureResponse.mk
          (Feature.id db_feature) (Feature.title db_feature)
          (Feature.description db_feature) (Feature.user_id db_feature)
          (User.username current_user) (Feature.vote_count db_feature)
          (Feature.status db_feature) (Feature.created_at db_feature) false).

(** One turn of the formatting loop of [get_features].  [feature.user] is the
    row the foreign key points at; reading [.username] of a missing one is an
    [AttributeError], which the handler does not catch. *)
Definition format_feature (db : Database) (current_user : option User.t)
    (feature : Feature.t) : option FeatureResponse.t :=
  let user_voted :=
    match current_user with
    | Some u => has_voted db (User.id u) (Feature.id feature)
    | None => false
    end in
  owner ← user_by_id db (Feature.user_id feature);
  Some (FeatureResponse.mk
          (Feature.id feature) (Feature.title feature)
          (Feature.description feature) (Feature.user_id feature)
          (User.username owner) (Feature.vote_count feature)
          (Feature.status feature) (Feature.created_at feature) user_voted).

(** [query.offset(skip).limit(limit).all()].  OFFSET and LIMIT are bigint:
    the engine refuses a negative one and one beyond [2^63 - 1], both with a
    [DataError]. *)
Definition bigint_max : Z := 2 ^ 63 - 1.

Definition offset_limit {A} (skip limit : Z) (rows : list A) : Outcome (list A) :=
  if bool_decide (0 ≤ skip ≤ bigint_max ∧ 0 ≤ limit ≤ bigint_max)
  then Return (take (Z.to_nat limit) (drop (Z.to_nat skip) rows))
  else Raise DataError.

(** In the source the optional caller is looked up inside [try: ... except:];
    its first statement reads [oauth2_scheme._auto_error], an attribute the
    scheme object does not have, so the block always ends in its [except]
    branch with [current_user = None]. *)
Definition get_features (skip limit : Z) (sort_by : string) (db : Database)
  : Outcome (list FeatureResponse.t) :=
  let current_user : option User.t := None in
  let query :=
    if bool_decide (sort_by = "votes")
    then order_by_desc Feature.vote_count (features db)
    else order_by_desc Feature.created_at (features db) in
  match offset_limit skip limit query with
  | Raise e => Raise e
  | Return features =>
      match mapM (format_feature db current_user) features with
      | Some response => Return response
      | None => Raise AttributeError
      end
  end.

Definition vote_feature (now : Z) (feature_id : Z) (current_user : User.t)
  : Handler VoteResult.t :=
  feature ← query (λ db, feature_by_id db feature_id);
  match feature with
  | None => raise (HTTPException 404 "Feature not found")
  | Some _ =>
      existing_vote ← query (λ db, vote_by_user_and_feature db
                                     (User.id current_user) feature_id);
      match existing_vote with
      | Some existing_vote =>
          delete_vote existing_vote;;
          mret (VoteResult.mk "Vote removed" false)
      | None =>
          insert_vote now (User.id current_user) feature_id 1;;
          mret (VoteResult.mk "Vote added" true)
      end
  end.

Definition delete_feature (feature_id : Z) (current_user : User.t)
  : Handler string :=
  feature ← query (λ db, feature_by_id_and_owner db feature_id
                           (User.id current_user));
  match feature with
  | None => raise (HTTPException 404
                     "Feature not found or you don't have permission")
  | Some feature =>
      delete_feature_row feature;;
      mret "Feature deleted successfully"%string
  end.

End Handlers.

(** ** Concurrent requests to [vote_feature]

    The endpoint is a plain [def]: the server runs each request on a worker
    thread with a session of its own.  A request reads (the two SELECTs of
    lines 336-344), decides, and then flushes its unit of work at
    [db.commit()] (lines 348-349 and 358-359); other requests can run between
    the two. *)

Inductive Pending : Type :=
| PendingInsert (user_id feature_id : Z)
| PendingDelete (existing_vote : Vote.t).

Definition vote_feature_select (feature_id : Z) (current_user : User.t)
    (db : Database) : Outcome Pending :=
  match feature_by_id db feature_id with
  | None => Raise (HTTPException 404 "Feature not found")
  | Some _ =>
      match vote_by_user_and_feature db (User.id current_user) feature_id with
      | Some existing_vote => Return (PendingDelete existing_vote)
      | None => Return (PendingInsert (User.id current_user) feature_id)
      end
  end.

Definition vote_feature_flush (now : Z) (p : Pending) : Handler VoteResult.t :=
  match p with
  | PendingDelete existing_vote =>
      delete_vote existing_vote;;
      mret (VoteResult.mk "Vote removed" false)
  | PendingInsert user_id feature_id =>
      insert_vote now user_id feature_id 1;;
      mret (VoteResult.mk "Vote added" true)
  end.

(** Where a request stands. *)
Inductive Request : Type :=
| Received
| Selected (p : Pending)
| Responded (o : Outcome VoteResult.t).

(** One step of a pool of requests that all toggle the vote of
    [current_user] on [feature_id]: some request reads, or some request that
    has read flushes. *)
Inductive step (feature_id : Z) (current_user : User.t)
  : Database * list Request → Database * list Request → Prop :=
| step_select db pool i :
    pool !! i = Some Received →
    step feature_id current_user (db, pool)
      (db, <[i := match vote_feature_select feature_id current_user db with
                  | Return p => Selected p
                  | Raise e => Responded (Raise e)
                  end]> pool)
| step_flush db pool i p now :
    pool !! i = Some (Selected p) →
    step feature_id current_user (db, pool)
      ((vote_feature_flush now p db).2,
       <[i := Responded (vote_feature_flush now p db).1]> pool).

(** ** Consistency of a database state: the declared constraints hold *)

Definition vote_pair (v : Vote.t) : Z * Z := (Vote.user_id v, Vote.feature_id v).

Record consistent (db : Database) : Prop := {
  users_pkey : NoDup (User.id <$> users db);
  users_username_key : NoDup (User.username <$> users db);
  users_email_key : NoDup (User.email <$> users db);
  features_pkey : NoDup (Feature.id <$> features db);
  votes_pkey : NoDup (Vote.id <$> votes db);
  user_feature_uc : NoDup (vote_pair <$> votes db);
  features_user_id_fkey :
    ∀ f, f ∈ features db → Feature.user_id f ∈ User.id <$> users db;
  votes_user_id_fkey :
    ∀ v, v ∈ votes db → Vote.user_id v ∈ User.id <$> users db;
  votes_feature_id_fkey :
    ∀ v, v ∈ votes db → Vote.feature_id v ∈ Feature.id <$> features db;
  users_id_seq_fresh : ∀ u, u ∈ users db → User.id u < users_id_seq db;
  features_id_seq_fresh : ∀ f, f ∈ features db → Feature.id f < features_id_seq db;
  votes_id_seq_fresh : ∀ v, v ∈ votes db → Vote.id v < votes_id_seq db
}.

(** The states the endpoints can bring the database to, from the empty one. *)
Inductive reachable `{B : Bcrypt} : Database → Prop :=
| reachable_empty : reachable empty_db
| reachable_register now salt user db :
    reachable db → reachable (register now salt user db).2
| reachable_create_feature now feature current_user db :
    reachable db → current_user ∈ users db →
    reachable (create_feature now feature current_user db).2
| reachable_vote_feature now feature_id current_user db :
    reachable db → current_user ∈ users db →
    reachable (vote_feature now feature_id current_user db).2
| reachable_delete_feature feature_id current_user db :
    reachable db → current_user ∈ users db →
    reachable (delete_feature feature_id current_user db).2.

(** ** Reference instances of the library interfaces

    Small, executable stand-ins that satisfy the laws above; the handlers run
    on them. *)

Module Reference.

#[export] Instance JSON_countable : Countable JSON.
Proof.
  refine (inj_countable' (λ j, match j with JStr s => inl s | JNum n => inr n end)
                         (λ x, match x with inl s => JStr s | inr n => JNum n end) _).
  by intros [].
Defined.

(** A positive number written in binary, lowest bit first, and read back. *)
Fixpoint bits (p : positive) : string :=
  match p with
  | xH => ""
  | xO q => String "0"%char (bits q)
  | xI q => String "1"%char (bits q)
  end.

Fixpoint unbits (s : string) : option positive :=
  match s with
  | EmptyString => Some xH
  | String c r =>
      if bool_decide (c = "0"%char) then xO <$> unbits r
      else if bool_decide (c = "1"%char) then xI <$> unbits r
      else None
  end.

(** Unsigned tokens: the token spells out algorithm, key and claims. *)
Definition jwt_encode (claims : gmap string JSON) (key alg : string) : string :=
  bits (encode (alg, key, claims)).

Definition jws_verify (token key : string) (algs : list string)
  : option (gmap string JSON) :=
  p ← unbits token;
  '(alg, k, claims) ← decode (A := string * string * gmap string JSON) p;
  if bool_decide (k = key ∧ alg ∈ algs) then Some claims else None.

Definition validate_claims (claims : gmap string JSON) (now : Z) : bool :=
  match claims !! "exp" with
  | Some (JNum e) => bool_decide (now ≤ e)
  | Some (JStr _) => false
  | None => true
  end
  && match claims !! "sub" with
     | Some (JNum _) => false
     | _ => true
     end.

#[export] Instance jose : Jose := Build_Jose jwt_encode jws_verify validate_claims.

(** Digests in the format of bcrypt that spell out, in the bcrypt alphabet,
    the first characters of the salt and of the secret. *)
Definition to_bcrypt64 (c : ascii) : ascii :=
  match String.get (nat_of_ascii c mod 64) bcrypt64 with
  | Some d => d
  | None => "."%char
  end.

Fixpoint fill (n : nat) (s : string) : string :=
  match n with
  | O => EmptyString
  | S m =>
      match s with
      | EmptyString => String "."%char (fill m EmptyString)
      | String c r => String (to_bcrypt64 c) (fill m r)
      end
  end.

Fixpoint skip (n : nat) (s : string) : string :=
  match n, s with
  | S m, String _ r => skip m r
  | _, _ => s
  end.

Definition bcrypt_hash (salt secret : string) : string :=
  "$2b$12$" +:+ fill 22 salt +:+ fill 31 secret.

Definition bcrypt_verify (secret digest : string) : Outcome bool :=
  if bcrypt_well_formed digest && bcrypt_accepts secret
  then Return (bool_decide (skip (String.length digest - 31) digest = fill 31 secret))
  else Raise ValueError.

#[export] Instance bcrypt : Bcrypt := Build_Bcrypt bcrypt_hash bcrypt_verify.

(** ORDER BY as an insertion sort of the scanned rows: a row goes in front
    of the rows scanned after it whose key is not larger. *)
Fixpoint insert_desc (key : Feature.t → Z) (f : Feature.t) (sorted : list Feature.t)
  : list Feature.t :=
  match sorted with
  | [] => [f]
  | g :: rest =>
      if decide (key g ≤ key f) then f :: sorted
      else g :: insert_desc key f rest
  end.

Definition order_by_desc (key : Feature.t → Z) (rows : list Feature.t)
  : list Feature.t :=
  foldr (insert_desc key) [] rows.

#[export] Instance sql_engine : SqlEngine := Build_SqlEngine order_by_desc.

#[export] Instance config : Config := Build_Config "your-secret-key-change-in-production".

End Reference.

(** ** A scenario: alice and bob register, alice proposes two features and
    votes for the second. *)

Module Scenario.
Import Reference.

Definition alice : UserCreate.t := UserCreate.mk "alice" "alice@example.com" "wonderland".
Definition bob : UserCreate.t := UserCreate.mk "bob" "bob@example.com" "builder".

Definition alice_row : User.t :=
  User.mk 1 "alice" "alice@example.com" (bcrypt_hash "salt" "wonderland") 1000 1000.

Definition db1 : Database := (register 1000 "salt" alice empty_db).2.
Definition db2 : Database := (register 2000 "salt" bob db1).2.
Definition db3 : Database :=
  (create_feature 3000 (FeatureCreate.mk "F1" "first") alice_row db2).2.
Definition db4 : Database :=
  (create_feature 4000 (FeatureCreate.mk "F2" "second") alice_row db3).2.
Definition db5 : Database := (vote_feature 5000 2 alice_row db4).2.


(** A request whose email is alice's and whose username holds NUL. *)
Definition mallory : UserCreate.t :=
  UserCreate.mk (String "m"%char (String "000"%char "llory")) "alice@example.com"
                "secret".

(** The users of [db4] with three features whose [vote_count] holds numbers
    other than the default. *)
Definition db_counted : Database :=
  mkDatabase (users db4)
    [Feature.mk 1 "F1" "first" 1 1 "open" 3000 3000;
     Feature.mk 2 "F2" "second" 1 3 "open" 4000 4000;
     Feature.mk 3 "F3" "third" 2 3 "open" 4500 4500]
    [] 3 4 1.

(** What the listing shows for the two features. *)
Definition F1_response : FeatureResponse.t :=
  FeatureResponse.mk 1 "F1" "first" 1 "alice" 0 "open" 3000 false.
Definition F2_response : FeatureResponse.t :=
  FeatureResponse.mk 2 "F2" "second" 1 "alice" 0 "open" 4000 false.

End Scenario.

(** ** Vocabulary of the properties *)

(** The two answers of [vote_feature]. *)
Definition vote_added : VoteResult.t := VoteResult.mk "Vote added" true.
Definition vote_removed : VoteResult.t := VoteResult.mk "Vote removed" false.

(** The Vote row that [vote_feature] inserts at [now]. *)
Definition new_vote (now uid fid : Z) (db : Database) : Vote.t :=
  Vote.mk (votes_id_seq db) uid fid 1 now.

(** The Vote rows of a pair. *)
Definition votes_of_pair (db : Database) (uid fid : Z) : list Vote.t :=
  filter (λ v, vote_pair v = (uid, fid)) (votes db).

(** The expiry [create_access_token] gives a token. *)
Definition expire_at (utcnow : Z) (expires_delta : option Z) : Z :=
  match expires_delta with
  | Some delta => if bool_decide (delta ≠ 0) then utcnow + delta
                  else utcnow + minutes 15
  | None => utcnow + minutes 15
  end.

(** A token issued at [utcnow] for a username and validated at [utcnow']:
    [get_current_user] on the token of [create_access_token]. *)
Definition issue_and_validate `{C : Config} `{J : Jose} (utcnow utcnow' : Z)
    (username : string) (expires_delta : option Z) (db : Database)
  : Outcome User.t :=
  match create_access_token utcnow {["sub" := JStr username]} expires_delta with
  | Raise e => Raise e
  | Return token => get_current_user utcnow' token db
  end.

(** A [datetime] within [datetime.min] and [datetime.max]. *)
Definition representable (d : Z) : Prop := datetime_min ≤ d ≤ datetime_max.

(** The answer of [register] to a taken username or email. *)
Definition already_registered : Exception :=
  HTTPException 400 "Username or email already registered".

(** Non-increasing displayed vote count. *)
Definition by_displayed_count (r r' : FeatureResponse.t) : Prop :=
  FeatureResponse.vote_count r' ≤ FeatureResponse.vote_count r.

(** ** Further vocabulary *)

(** passlib's contract for digests of its own making: the context identifies
    them, and the secret that was hashed verifies. *)
Class BcryptLaws (B : Bcrypt) : Prop := {
  bcrypt_hash_identified : ∀ salt secret,
    bcrypt_accepts secret = true →
    bcrypt_identify (bcrypt_hash salt secret) = true;
  bcrypt_verify_hash : ∀ salt secret,
    bcrypt_accepts secret = true →
    bcrypt_verify secret (bcrypt_hash salt secret) = Return true
}.

(** passlib's contract for what the bcrypt handler parses: a digest of its
    own making parses; a digest that does not parse and a secret that the
    handler refuses end [verify] with a [ValueError]; on a digest that parses
    and a secret that it accepts [verify] answers. *)
Class BcryptParses (B : Bcrypt) : Prop := {
  bcrypt_hash_well_formed : ∀ salt secret,
    bcrypt_accepts secret = true →
    bcrypt_well_formed (bcrypt_hash salt secret) = true;
  bcrypt_verify_malformed : ∀ secret digest,
    bcrypt_well_formed digest = false →
    bcrypt_verify secret digest = Raise ValueError;
  bcrypt_verify_refused : ∀ secret digest,
    bcrypt_accepts secret = false →
    bcrypt_verify secret digest = Raise ValueError;
  bcrypt_verify_answers : ∀ secret digest,
    bcrypt_well_formed digest = true → bcrypt_accepts secret = true →
    is_Return (bcrypt_verify secret digest) = true
}.

(** An engine whose sort keeps the rows of equal key in the order in which
    it scanned them. *)
Class SqlEngineStable (E : SqlEngine) : Prop := {
  order_by_desc_stable : ∀ key rows k,
    filter (λ f, key f = k) (order_by_desc key rows) = filter (λ f, key f = k) rows
}.

(** The table of features in the order of insertion: ascending ids. *)
Definition ascending_id (f g : Feature.t) : Prop := Feature.id f < Feature.id g.

Definition in_insertion_order (db : Database) : Prop :=
  StronglySorted ascending_id (features db).

(** Larger displayed count first, and smaller id first among equal counts. *)
Definition by_count_then_id (r r' : FeatureResponse.t) : Prop :=
  FeatureResponse.vote_count r' < FeatureResponse.vote_count r
  ∨ (FeatureResponse.vote_count r' = FeatureResponse.vote_count r
     ∧ FeatureResponse.id r < FeatureResponse.id r').

(** A value of at most [n] characters: a [varchar(n)] stores it as it is. *)
Definition fits (s : string) (n : nat) : Prop := (characters s ≤ n)%nat.

(** The 401 of [login]. *)
Definition incorrect_credentials : Exception :=
  HTTPException 401 "Incorrect username or password".

(** The 404 of [vote_feature] and the 404 of [delete_feature]. *)
Definition feature_not_found : Exception :=
  HTTPException 404 "Feature not found".
Definition not_found_or_forbidden : Exception :=
  HTTPException 404 "Feature not found or you don't have permission".

(** One toggle after another by the same user on the same feature, at the
    given database times; the database after the last one. *)
Definition vote_feature_each (nows : list Z) (feature_id : Z)
    (current_user : User.t) (db : Database) : Database :=
  foldl (λ d now, (vote_feature now feature_id current_user d).2) db nows.

(** The row [register] stores and the row [create_feature] stores. *)
Definition new_user `{B : Bcrypt} (now : Z) (salt : string) (user : UserCreate.t)
    (db : Database) : User.t :=
  User.mk (users_id_seq db) (UserCreate.username user) (UserCreate.email user)
          (bcrypt_hash salt (UserCreate.password user)) now now.

Definition new_feature (now : Z) (feature : FeatureCreate.t) (current_user : User.t)
    (db : Database) : Feature.t :=
  Feature.mk (features_id_seq db) (FeatureCreate.title feature)
             (FeatureCreate.description feature) (User.id current_user)
             0 status_open now now.

(** Non-increasing creation time. *)
Definition by_recency (r r' : FeatureResponse.t) : Prop :=
  FeatureResponse.created_at r' ≤ FeatureResponse.created_at r.

(** More rows and requests of the scenario. *)
Definition carol : UserCreate.t := UserCreate.mk "carol" "carol@example.com" "cipher".
Definition bob_row : User.t :=
  User.mk 2 "bob" "bob@example.com" (Reference.bcrypt_hash "salt" "builder") 2000 2000.
Definition F1_row : Feature.t := Feature.mk 1 "F1" "first" 1 0 "open" 3000 3000.

(** A title of 200 dots and a space. *)
Definition padded_title : string := Reference.fill 200 "" +:+ " ".

(** The token [login] hands alice at time 0. *)
Definition alice_token : Token.t :=
  Token.mk (jwt_encode (Jose := Reference.jose)
              (<["exp" := JNum (timegm (0 + minutes ACCESS_TOKEN_EXPIRE_MINUTES))]>
                 {["sub" := JStr "alice"]})
              (SECRET_KEY (Config := Reference.config)) ALGORITHM)
           "bearer".

(** * Verification *)

(** ** Facts about [first()] and about keyed rows *)

Section Rows.
Context {A : Type}.

Lemma first_None (P : A → Prop) `{!∀ x, Decision (P x)} (l : list A) :
  head (filter P l) = None ↔ ∀ x, x ∈ l → ¬ P x.
Proof.
  rewrite head_None. split.
  - intros Hnil x Hx HP. exact (filter_nil_not_elem_of _ _ _ Hnil HP Hx).
  - intros Hnone. induction l as [|y l IH]; [done|].
    rewrite filter_cons_False; [|apply Hnone; left].
    apply IH. intros x Hx. apply Hnone. by right.
Qed.

Lemma first_Some (P : A → Prop) `{!∀ x, Decision (P x)} (l : list A) x :
  head (filter P l) = Some x → x ∈ l ∧ P x.
Proof.
  intros Hx. apply head_Some_elem_of, list_elem_of_filter in Hx. tauto.
Qed.

Lemma first_is_Some (P : A → Prop) `{!∀ x, Decision (P x)} (l : list A) :
  is_Some (head (filter P l)) ↔ ∃ x, x ∈ l ∧ P x.
Proof.
  split.
  - intros [x Hx]. exists x. by apply first_Some in Hx.
  - intros (x & Hx & HP). destruct (head (filter P l)) eqn:E; [by eexists|].
    rewrite first_None in E. by destruct (E x Hx).
Qed.

(** Under a unique key, the row found by the key is the only row with it. *)
Lemma unique_key {K} (key : A → K) (l : list A) x y :
  NoDup (key <$> l) → x ∈ l → y ∈ l → key x = key y → x = y.
Proof.
  induction l as [|z l IH]; [by intros _ ?%elem_of_nil|].
  rewrite fmap_cons, NoDup_cons, !elem_of_cons.
  intros [Hz Hl] [->|Hx] [->|Hy] Hk; try done.
  - destruct Hz. rewrite Hk. by apply list_elem_of_fmap_2.
  - destruct Hz. rewrite <- Hk. by apply list_elem_of_fmap_2.
  - by apply IH.
Qed.

Lemma NoDup_fmap_snoc {K} (key : A → K) (l : list A) x :
  NoDup (key <$> l) → key x ∉ key <$> l → NoDup (key <$> l ++ [x]).
Proof.
  intros Hl Hx. rewrite fmap_app, NoDup_app. split_and!; [done| |apply NoDup_singleton].
  intros k Hk ->%list_elem_of_singleton. done.
Qed.

Lemma NoDup_fmap_filter {K} (key : A → K) (P : A → Prop)
    `{!∀ x, Decision (P x)} (l : list A) :
  NoDup (key <$> l) → NoDup (key <$> filter P l).
Proof.
  intros Hl. apply (sublist_NoDup _ (key <$> l)); [done|].
  apply fmap_sublist, sublist_filter.
Qed.

(** Removing the row with a given unique key removes exactly one row, and
    that row counts for [Q] or not. *)
Lemma length_filter_remove {K} `{EqDecision K} (key : A → K) (Q : A → Prop)
    `{!∀ x, Decision (Q x)} (l : list A) x :
  NoDup (key <$> l) → x ∈ l →
  (length (filter Q (filter (λ y, key y ≠ key x) l))
   + (if decide (Q x) then 1 else 0))%nat = length (filter Q l).
Proof.
  induction l as [|z l IH]; [by intros _ ?%elem_of_nil|].
  rewrite fmap_cons, NoDup_cons, elem_of_cons. intros [Hz Hl] Hx.
  destruct (decide (key z = key x)) as [Hk|Hk].
  - assert (z = x) as ->.
    { destruct Hx as [->|Hx]; [done|]. destruct Hz. rewrite Hk.
      by apply list_elem_of_fmap_2. }
    rewrite (filter_cons_False (λ y, key y ≠ key x)); [|naive_solver].
    assert (filter (λ y, key y ≠ key x) l = l) as ->.
    { clear IH Hx Hl. induction l as [|w l IH]; [done|].
      rewrite fmap_cons, not_elem_of_cons in Hz. destruct Hz as [Hw Hz].
      rewrite filter_cons_True; [|congruence]. f_equal. by apply IH. }
    rewrite (filter_cons Q). destruct (decide (Q x)); simpl; lia.
  - destruct Hx as [->|Hx]; [done|].
    rewrite (filter_cons_True (λ y, key y ≠ key x)); [|done].
    rewrite !(filter_cons Q). specialize (IH Hl Hx).
    destruct (decide (Q z)); simpl; lia.
Qed.

Lemma filter_ext_elem (P Q : A → Prop) `{!∀ x, Decision (P x), !∀ x, Decision (Q x)}
    (l : list A) :
  (∀ x, x ∈ l → P x ↔ Q x) → filter P l = filter Q l.
Proof.
  induction l as [|y l IH]; [done|]. intros HPQ.
  rewrite !filter_cons, IH by (intros x Hx; apply HPQ; by right).
  apply decide_ext, HPQ. by left.
Qed.
Lemma filter_all (P : A → Prop) `{!∀ x, Decision (P x)} (l : list A) :
  (∀ x, x ∈ l → P x) → filter P l = l.
Proof.
  induction l as [|y l IH]; [done|]. intros HP.
  rewrite filter_cons_True by (apply HP; by left).
  f_equal. apply IH. intros x Hx. apply HP. by right.
Qed.

End Rows.

(** ** Queries *)

Lemma user_by_id_is_Some db uid :
  is_Some (user_by_id db uid) ↔ uid ∈ User.id <$> users db.
Proof.
  unfold user_by_id. rewrite first_is_Some, list_elem_of_fmap.
  split; intros (u & H1 & H2); exists u; by split.
Qed.

Lemma feature_by_id_is_Some db fid :
  is_Some (feature_by_id db fid) ↔ fid ∈ Feature.id <$> features db.
Proof.
  unfold feature_by_id. rewrite first_is_Some, list_elem_of_fmap.
  split; intros (f & H1 & H2); exists f; by split.
Qed.

Lemma has_voted_true db uid fid :
  has_voted db uid fid = true ↔ ∃ v, v ∈ votes db ∧ vote_pair v = (uid, fid).
Proof.
  unfold has_voted, vote_by_user_and_feature, vote_pair.
  rewrite bool_decide_eq_true, first_is_Some.
  split; intros (v & Hv & Hp); exists v; (split; [done|]).
  - destruct Hp as [-> ->]. done.
  - by injection Hp.
Qed.

Lemma has_voted_false db uid fid :
  has_voted db uid fid = false ↔ ∀ v, v ∈ votes db → vote_pair v ≠ (uid, fid).
Proof.
  rewrite <- not_true_iff_false, has_voted_true. split.
  - intros Hnone v Hv Hp. apply Hnone. by exists v.
  - intros Hall (v & Hv & Hp). by apply (Hall v).
Qed.

Lemma has_voted_select db uid fid :
  has_voted db uid fid = false ↔ vote_by_user_and_feature db uid fid = None.
Proof.
  unfold has_voted. rewrite bool_decide_eq_false, <- eq_None_not_Some. done.
Qed.

Lemma user_row_id db (u : User.t) : u ∈ users db → is_Some (user_by_id db (User.id u)).
Proof. intros Hu. apply user_by_id_is_Some. by apply list_elem_of_fmap_2. Qed.

(** ** The two units of work of [vote_feature] *)

Lemma insert_vote_fresh now uid fid db :
  consistent db →
  is_Some (user_by_id db uid) → is_Some (feature_by_id db fid) →
  has_voted db uid fid = false →
  insert_vote now uid fid 1 db
  = (Return (new_vote now uid fid db),
     with_votes db (votes db ++ [new_vote now uid fid db]) (votes_id_seq db + 1)).
Proof.
  intros Hdb Hu Hf Hv. unfold insert_vote.
  rewrite (bool_decide_eq_false_2 (Exists _ _)).
  2:{ rewrite Exists_exists. intros (v & Hin & Hid).
      apply (votes_id_seq_fresh _ Hdb) in Hin. lia. }
  rewrite !bool_decide_eq_true_2 by done. simpl.
  apply has_voted_select in Hv. rewrite Hv.
  rewrite bool_decide_eq_false_2 by (by intros [? ?]). done.
Qed.

Lemma insert_vote_duplicate now uid fid vtype db :
  has_voted db uid fid = true →
  insert_vote now uid fid vtype db
  = (Raise IntegrityError, with_votes db (votes db) (votes_id_seq db + 1)).
Proof.
  intros Hv. unfold insert_vote. unfold has_voted in Hv. rewrite Hv.
  by rewrite !orb_true_r.
Qed.

(** ** The units of work keep the constraints *)

Ltac spent_seq Hdb seq_fresh :=
  constructor; simpl; try (by apply Hdb);
  let v := fresh "v" in let Hv := fresh "Hv" in
  intros v Hv; apply (seq_fresh _ Hdb) in Hv; lia.

Lemma insert_vote_consistent now uid fid vtype db :
  consistent db → consistent (insert_vote now uid fid vtype db).2.
Proof.
  intros Hdb. unfold insert_vote.
  destruct (bool_decide (Exists _ _)) eqn:Epk; simpl;
    [spent_seq Hdb votes_id_seq_fresh|].
  destruct (bool_decide (is_Some (user_by_id db uid))) eqn:Eu; simpl;
    [|spent_seq Hdb votes_id_seq_fresh].
  destruct (bool_decide (is_Some (feature_by_id db fid))) eqn:Ef; simpl;
    [|spent_seq Hdb votes_id_seq_fresh].
  destruct (bool_decide (is_Some (vote_by_user_and_feature db uid fid))) eqn:Ev; simpl;
    [spent_seq Hdb votes_id_seq_fresh|].
  apply bool_decide_eq_false in Epk. apply bool_decide_eq_true in Eu, Ef.
  change (has_voted db uid fid = false) in Ev.
  pose proof (proj1 (has_voted_false _ _ _) Ev) as Hfresh.
  constructor; simpl; try (by apply Hdb).
  - apply NoDup_fmap_snoc; [by apply Hdb|]. simpl.
    intros (v & Hid & Hv)%list_elem_of_fmap.
    apply Epk, Exists_exists. eauto.
  - apply NoDup_fmap_snoc; [by apply Hdb|]. intros (v & Hp & Hv)%list_elem_of_fmap.
    by apply (Hfresh v).
  - intros v [Hv| ->%list_elem_of_singleton]%elem_of_app;
      [by apply Hdb|by apply user_by_id_is_Some].
  - intros v [Hv| ->%list_elem_of_singleton]%elem_of_app;
      [by apply Hdb|by apply feature_by_id_is_Some].
  - intros v [Hv| ->%list_elem_of_singleton]%elem_of_app; simpl; [|lia].
    apply (votes_id_seq_fresh _ Hdb) in Hv. lia.
Qed.

Lemma delete_vote_consistent v db :
  consistent db → consistent (delete_vote v db).2.
Proof.
  intros Hdb. constructor; simpl; try (by apply Hdb).
  - by apply NoDup_fmap_filter, Hdb.
  - by apply NoDup_fmap_filter, Hdb.
  - intros w [_ Hw]%list_elem_of_filter. by apply Hdb.
  - intros w [_ Hw]%list_elem_of_filter. by apply Hdb.
  - intros w [_ Hw]%list_elem_of_filter. by apply Hdb.
Qed.

(** [delete_vote] of a row of the table removes the row of its pair. *)
Lemma delete_vote_has_voted v db :
  consistent db → v ∈ votes db →
  has_voted (delete_vote v db).2 (Vote.user_id v) (Vote.feature_id v) = false.
Proof.
  intros Hdb Hv. apply has_voted_false. simpl.
  intros w [Hid Hw]%list_elem_of_filter Hp. apply Hid. f_equal.
  by apply (unique_key vote_pair (votes db)); [apply Hdb|..].
Qed.

Lemma delete_vote_count v db fid :
  consistent db → v ∈ votes db →
  count_votes (delete_vote v db).2 fid
  = count_votes db fid - (if decide (Vote.feature_id v = fid) then 1 else 0).
Proof.
  intros Hdb Hv. unfold count_votes, votes_of_feature. simpl.
  pose proof (length_filter_remove Vote.id (λ w, Vote.feature_id w = fid)
                (votes db) v (votes_pkey _ Hdb) Hv) as Hlen.
  destruct (decide (Vote.feature_id v = fid)); lia.
Qed.

Lemma insert_vote_count now uid fid db fid' :
  count_votes
    (with_votes db (votes db ++ [new_vote now uid fid db]) (votes_id_seq db + 1)) fid'
  = count_votes db fid' + (if decide (fid = fid') then 1 else 0).
Proof.
  unfold count_votes, votes_of_feature. simpl.
  rewrite filter_app, length_app, (filter_singleton _ _ []). simpl.
  destruct (decide (fid = fid')); simpl; lia.
Qed.

Lemma insert_vote_has_voted now uid fid db :
  has_voted
    (with_votes db (votes db ++ [new_vote now uid fid db]) (votes_id_seq db + 1))
    uid fid = true.
Proof.
  apply has_voted_true. exists (new_vote now uid fid db). split; [|done].
  simpl. apply elem_of_app. right. by apply list_elem_of_singleton.
Qed.

(** ** [vote_feature], one request at a time *)

Lemma vote_feature_phases now feature_id current_user db :
  vote_feature now feature_id current_user db
  = match vote_feature_select feature_id current_user db with
    | Return p => vote_feature_flush now p db
    | Raise e => (Raise e, db)
    end.
Proof.
  unfold vote_feature, vote_feature_select, vote_feature_flush, mbind, Handler_bind,
    query, raise.
  destruct (feature_by_id db feature_id); [|done].
  by destruct (vote_by_user_and_feature db (User.id current_user) feature_id).
Qed.

Lemma vote_feature_insert now feature_id current_user db :
  consistent db → current_user ∈ users db →
  is_Some (feature_by_id db feature_id) →
  has_voted db (User.id current_user) feature_id = false →
  vote_feature now feature_id current_user db
  = (Return vote_added,
     with_votes db (votes db ++ [new_vote now (User.id current_user) feature_id db])
                (votes_id_seq db + 1)).
Proof.
  intros Hdb Hu [f Hf] Hv. rewrite vote_feature_phases. unfold vote_feature_select.
  rewrite Hf. rewrite (proj1 (has_voted_select _ _ _) Hv). simpl.
  unfold mbind, Handler_bind.
  rewrite insert_vote_fresh; eauto using user_row_id.
Qed.

Lemma vote_feature_delete now feature_id current_user db :
  is_Some (feature_by_id db feature_id) →
  has_voted db (User.id current_user) feature_id = true →
  ∃ existing_vote,
    existing_vote ∈ votes db
    ∧ vote_pair existing_vote = (User.id current_user, feature_id)
    ∧ vote_feature now feature_id current_user db
      = (Return vote_removed, (delete_vote existing_vote db).2).
Proof.
  intros [f Hf] Hv. apply bool_decide_eq_true in Hv as [v Hv].
  exists v. pose proof (first_Some _ _ _ Hv) as [Hin [Hu Hfid]].
  split_and!; [done|by unfold vote_pair; f_equal|].
  rewrite vote_feature_phases. unfold vote_feature_select. by rewrite Hf, Hv.
Qed.

(** What one toggle does to a consistent database. *)
Lemma vote_feature_spec now feature_id current_user db :
  consistent db → current_user ∈ users db →
  is_Some (feature_by_id db feature_id) →
  ∃ db',
    vote_feature now feature_id current_user db
    = (Return (if has_voted db (User.id current_user) feature_id
               then vote_removed else vote_added), db')
    ∧ consistent db' ∧ users db' = users db ∧ features db' = features db
    ∧ has_voted db' (User.id current_user) feature_id
      = negb (has_voted db (User.id current_user) feature_id)
    ∧ ∀ fid, count_votes db' fid
             = count_votes db fid
               + (if decide (feature_id = fid)
                  then (if has_voted db (User.id current_user) feature_id
                        then -1 else 1)
                  else 0).
Proof.
  intros Hdb Hu Hf.
  destruct (has_voted db (User.id current_user) feature_id) eqn:Hv.
  - destruct (vote_feature_delete now _ _ _ Hf Hv) as (v & Hin & Hp & ->).
    injection Hp as Huid Hfid.
    eexists. split_and!; [done|by apply delete_vote_consistent|done|done|..].
    + rewrite <- Huid, <- Hfid. by apply delete_vote_has_voted.
    + intros fid. rewrite delete_vote_count by done. rewrite Hfid.
      destruct (decide (feature_id = fid)); lia.
  - rewrite vote_feature_insert by done.
    eexists. split_and!; [done| |done|done|..].
    + pose proof (insert_vote_consistent now (User.id current_user) feature_id 1 db Hdb)
        as Hc.
      rewrite insert_vote_fresh in Hc; eauto using user_row_id.
    + apply insert_vote_has_voted.
    + intros fid. apply insert_vote_count.
Qed.

(** Claim C2.  For every user and existing feature of a consistent
    database, the toggle creates the Vote row of the pair and answers
    [voted = true] when the pair has no row, and deletes the row of the pair
    and answers [voted = false] when it has one; these are the only two
    outcomes. *)
Theorem vote_feature_toggles now feature_id current_user db :
  consistent db → current_user ∈ users db →
  is_Some (feature_by_id db feature_id) →
  (has_voted db (User.id current_user) feature_id = false →
   ∃ row db',
     vote_feature now feature_id current_user db = (Return vote_added, db')
     ∧ vote_pair row = (User.id current_user, feature_id)
     ∧ (row ∉ votes db)
     ∧ votes db' = votes db ++ [row]
     ∧ has_voted db' (User.id current_user) feature_id = true)
  ∧ (has_voted db (User.id current_user) feature_id = true →
     ∃ row db',
       vote_feature now feature_id current_user db = (Return vote_removed, db')
       ∧ vote_pair row = (User.id current_user, feature_id)
       ∧ row ∈ votes db
       ∧ votes db' = filter (λ w, w ≠ row) (votes db)
       ∧ has_voted db' (User.id current_user) feature_id = false)
  ∧ ((vote_feature now feature_id current_user db).1 = Return vote_added
     ∨ (vote_feature now feature_id current_user db).1 = Return vote_removed).
Proof.
  intros Hdb Hu Hf. split_and!.
  - intros Hv. exists (new_vote now (User.id current_user) feature_id db).
    eexists. rewrite vote_feature_insert by done.
    split_and!; [done|done| |done|apply insert_vote_has_voted].
    intros Hin%(votes_id_seq_fresh _ Hdb). simpl in Hin. lia.
  - intros Hv. destruct (vote_feature_delete now _ _ _ Hf Hv) as (v & Hin & Hp & ->).
    exists v. eexists. split_and!; [done|done|done|..].
    + simpl. apply filter_ext_elem. intros w Hw. split; [congruence|].
      intros Hne Hid. apply Hne.
      by apply (unique_key Vote.id (votes db)); [apply Hdb|..].
    + injection Hp as <- <-. by apply delete_vote_has_voted.
  - destruct (vote_feature_spec now _ _ _ Hdb Hu Hf) as (db' & -> & _).
    destruct (has_voted _ _ _); auto.
Qed.

(** Claim C4, as the code has it.  Two toggles in a row by the same user
    on the same existing feature.  The first answers [voted = true] when the
    pair had no vote and [voted = false] when it had one, and the second
    answers the opposite; between the two calls the vote of the pair is the
    opposite of what it was and the feature's number of Vote rows is one
    more, or one less; after the two calls the vote of the pair and every
    feature's number of Vote rows are what they were before.  So from the
    no-vote state the answers are [true] then [false], the pair has no vote
    afterwards and the Vote table is back to what it was. *)
Theorem vote_feature_twice now now' feature_id current_user db :
  consistent db → current_user ∈ users db →
  is_Some (feature_by_id db feature_id) →
  ∃ db' db'',
    vote_feature now feature_id current_user db
    = (Return (if has_voted db (User.id current_user) feature_id
               then vote_removed else vote_added), db')
    ∧ vote_feature now' feature_id current_user db'
      = (Return (if has_voted db (User.id current_user) feature_id
                 then vote_added else vote_removed), db'')
    ∧ has_voted db' (User.id current_user) feature_id
      = negb (has_voted db (User.id current_user) feature_id)
    ∧ count_votes db' feature_id
      = count_votes db feature_id
        + (if has_voted db (User.id current_user) feature_id then -1 else 1)
    ∧ has_voted db'' (User.id current_user) feature_id
      = has_voted db (User.id current_user) feature_id
    ∧ (∀ fid, count_votes db'' fid = count_votes db fid)
    ∧ (has_voted db (User.id current_user) feature_id = false →
       (vote_feature now feature_id current_user db).1 = Return vote_added
       ∧ (vote_feature now' feature_id current_user db').1 = Return vote_removed
       ∧ has_voted db'' (User.id current_user) feature_id = false
       ∧ votes db'' = votes db).
Proof.
  intros Hdb Hu Hf.
  destruct (vote_feature_spec now _ _ _ Hdb Hu Hf)
    as (db' & E1 & Hdb' & Hus & Hfs & Hv1 & Hc1).
  assert (is_Some (feature_by_id db' feature_id)) as Hf'
    by (unfold feature_by_id; by rewrite Hfs).
  assert (current_user ∈ users db') as Hu' by (by rewrite Hus).
  destruct (vote_feature_spec now' _ _ _ Hdb' Hu' Hf')
    as (db'' & E2 & Hdb'' & _ & _ & Hv2 & Hc2).
  exists db', db''. rewrite E1, E2. split_and!; try done.
  - rewrite Hv1. by destruct (has_voted db _ _).
  - rewrite Hc1, decide_True by done. done.
  - rewrite Hv2, Hv1. apply negb_involutive.
  - intros fid. rewrite Hc2, Hc1, Hv1.
    destruct (decide (feature_id = fid)); [|lia].
    destruct (has_voted db _ _); simpl; lia.
  - intros Hv. rewrite Hv in *. simpl in Hv1. rewrite Hv1 in *.
    split_and!; try done.
    rewrite vote_feature_insert in E1 by done. injection E1 as <-.
    destruct (vote_feature_delete now' _ _ _ Hf' Hv1) as (v & Hin & Hp & E3).
    rewrite E3 in E2. injection E2 as <-. simpl in *.
    apply elem_of_app in Hin as [Hin| ->%list_elem_of_singleton].
    { by destruct (proj1 (has_voted_false _ _ _) Hv v Hin). }
    rewrite filter_app, (filter_singleton _ _ []), decide_False by (by intros ?).
    rewrite app_nil_r. apply filter_all. intros w Hw. simpl.
    apply (votes_id_seq_fresh _ Hdb) in Hw. lia.
Qed.

Lemma insert_user_consistent now name mail hash db :
  consistent db → consistent (insert_user now name mail hash db).2.
Proof.
  intros Hdb. unfold insert_user, bound.
  destruct (existsb _ _); [done|].
  destruct (varchar 50 name) as [name'|]; [|done].
  destruct (varchar 100 mail) as [mail'|]; [|done].
  destruct (varchar 255 hash) as [hash'|]; [|done].
  destruct (bool_decide (Exists _ _)) eqn:Euq; simpl;
    [spent_seq Hdb users_id_seq_fresh|].
  apply bool_decide_eq_false in Euq. rewrite Exists_exists in Euq.
  constructor; simpl; try (by apply Hdb).
  - apply NoDup_fmap_snoc; [by apply Hdb|]. simpl.
    intros (u & Hid & Hu)%list_elem_of_fmap. apply Euq. eauto.
  - apply NoDup_fmap_snoc; [by apply Hdb|]. simpl.
    intros (u & Hid & Hu)%list_elem_of_fmap. apply Euq. eauto.
  - apply NoDup_fmap_snoc; [by apply Hdb|]. simpl.
    intros (u & Hid & Hu)%list_elem_of_fmap. apply Euq. eauto.
  - intros f Hf. rewrite fmap_app. apply elem_of_app. left. by apply Hdb.
  - intros v Hv. rewrite fmap_app. apply elem_of_app. left. by apply Hdb.
  - intros u [Hu| ->%list_elem_of_singleton]%elem_of_app; simpl; [|lia].
    apply (users_id_seq_fresh _ Hdb) in Hu. lia.
Qed.

Lemma insert_feature_consistent now ttl dsc uid db :
  consistent db → consistent (insert_feature now ttl dsc uid db).2.
Proof.
  intros Hdb. unfold insert_feature, bound.
  destruct (existsb _ _); [done|].
  destruct (varchar 200 ttl) as [ttl'|]; [|done].
  destruct (bool_decide (Exists _ _)) eqn:Epk; simpl;
    [spent_seq Hdb features_id_seq_fresh|].
  destruct (bool_decide (is_Some (user_by_id db uid))) eqn:Eu; simpl;
    [|spent_seq Hdb features_id_seq_fresh].
  apply bool_decide_eq_false in Epk. rewrite Exists_exists in Epk.
  apply bool_decide_eq_true in Eu.
  constructor; simpl; try (by apply Hdb).
  - apply NoDup_fmap_snoc; [by apply Hdb|]. simpl.
    intros (f & Hid & Hf)%list_elem_of_fmap. apply Epk. eauto.
  - intros f [Hf| ->%list_elem_of_singleton]%elem_of_app;
      [by apply Hdb|by apply user_by_id_is_Some].
  - intros v Hv. rewrite fmap_app. apply elem_of_app. left. by apply Hdb.
  - intros f [Hf| ->%list_elem_of_singleton]%elem_of_app; simpl; [|lia].
    apply (features_id_seq_fresh _ Hdb) in Hf. lia.
Qed.

Lemma delete_feature_row_consistent f db :
  consistent db → consistent (delete_feature_row f db).2.
Proof.
  intros Hdb. unfold delete_feature_row.
  destruct (bool_decide _) eqn:Eref; simpl; [done|].
  apply bool_decide_eq_false in Eref. apply dec_stable in Eref.
  constructor; simpl; try (by apply Hdb).
  - by apply NoDup_fmap_filter, Hdb.
  - intros g [_ Hg]%list_elem_of_filter. by apply Hdb.
  - intros v Hv. pose proof (votes_feature_id_fkey _ Hdb v Hv) as Hfk.
    apply list_elem_of_fmap in Hfk as (g & Hid & Hg).
    apply list_elem_of_fmap. exists g. split; [done|].
    apply list_elem_of_filter. split; [|done].
    intros Hgf. eapply (filter_nil_not_elem_of _ _ v Eref); [|done].
    simpl. congruence.
  - intros g [_ Hg]%list_elem_of_filter. by apply Hdb.
Qed.

(** ** The endpoints keep the constraints *)

Section Endpoints.
Context `{B : Bcrypt}.

Lemma register_consistent now salt user db :
  consistent db → consistent (register now salt user db).2.
Proof.
  intros Hdb. unfold register, mbind, Handler_bind, query, bound, lift.
  destruct (existsb _ _); [done|].
  destruct (user_by_username_or_email _ _ _); [done|].
  destruct (get_password_hash _ _) as [hashed_password|]; [|done].
  pose proof (insert_user_consistent now (UserCreate.username user)
                (UserCreate.email user) hashed_password db Hdb) as Hc.
  by destruct (insert_user _ _ _ _ _) as [[] ?].
Qed.

Lemma create_feature_consistent now feature current_user db :
  consistent db → consistent (create_feature now feature current_user db).2.
Proof.
  intros Hdb. unfold create_feature, mbind, Handler_bind.
  pose proof (insert_feature_consistent now (FeatureCreate.title feature)
                (FeatureCreate.description feature) (User.id current_user) db Hdb) as Hc.
  by destruct (insert_feature _ _ _ _ _) as [[] ?].
Qed.

Lemma vote_feature_consistent now feature_id current_user db :
  consistent db → consistent (vote_feature now feature_id current_user db).2.
Proof.
  intros Hdb. rewrite vote_feature_phases. unfold vote_feature_select.
  destruct (feature_by_id _ _); [|done].
  destruct (vote_by_user_and_feature _ _ _) as [v|]; simpl.
  - by apply delete_vote_consistent.
  - unfold mbind, Handler_bind.
    pose proof (insert_vote_consistent now (User.id current_user) feature_id 1 db Hdb)
      as Hc.
    by destruct (insert_vote _ _ _ _ _) as [[] ?].
Qed.

Lemma delete_feature_consistent feature_id current_user db :
  consistent db → consistent (delete_feature feature_id current_user db).2.
Proof.
  intros Hdb. unfold delete_feature, mbind, Handler_bind, query.
  destruct (feature_by_id_and_owner _ _ _) as [f|]; [|done].
  pose proof (delete_feature_row_consistent f db Hdb) as Hc.
  by destruct (delete_feature_row _ _) as [[] ?].
Qed.

Lemma empty_db_consistent : consistent empty_db.
Proof.
  constructor; simpl; try apply NoDup_nil_2; by intros ? ?%elem_of_nil.
Qed.

(** Every state the endpoints can reach satisfies the declared constraints. *)
Lemma reachable_consistent db : reachable db → consistent db.
Proof.
  induction 1;
    auto using empty_db_consistent, register_consistent, create_feature_consistent,
      vote_feature_consistent, delete_feature_consistent.
Qed.

End Endpoints.

(** ** The reference instances satisfy the laws *)

Lemma unbits_bits p : Reference.unbits (Reference.bits p) = Some p.
Proof. induction p as [p IH|p IH|]; simpl; by rewrite ?IH. Qed.

#[export] Instance jose_laws : JoseLaws Reference.jose.
Proof.
  constructor; simpl.
  - intros claims key alg algs Halg. unfold Reference.jws_verify, Reference.jwt_encode.
    rewrite unbits_bits. simpl. rewrite decode_encode. simpl.
    by rewrite bool_decide_eq_true_2.
  - intros claims now e Hexp Hlt. unfold Reference.validate_claims. rewrite Hexp.
    rewrite bool_decide_eq_false_2 by lia. done.
  - intros claims now n Hsub. unfold Reference.validate_claims. rewrite Hsub.
    apply andb_false_r.
  - intros name e now Hle. unfold Reference.validate_claims.
    rewrite lookup_insert_eq, lookup_insert_ne, lookup_singleton_eq by done.
    by rewrite bool_decide_eq_true_2.
Qed.

#[global] Instance desc_transitive key : Transitive (desc key).
Proof. unfold desc. intros f g h ? ?. lia. Qed.

#[global] Instance desc_total key : Total (desc key).
Proof. unfold desc. intros f g. lia. Qed.

Lemma insert_desc_perm key f sorted : Reference.insert_desc key f sorted ≡ₚ f :: sorted.
Proof.
  induction sorted as [|g rest IH]; simpl; [done|].
  destruct (decide (key g ≤ key f)); [done|]. by rewrite IH, Permutation_swap.
Qed.

Lemma insert_desc_sorted key f sorted :
  StronglySorted (desc key) sorted →
  StronglySorted (desc key) (Reference.insert_desc key f sorted).
Proof.
  induction sorted as [|g rest IH]; simpl; intros Hs.
  - repeat constructor.
  - apply StronglySorted_inv in Hs as [Hrest Hg].
    destruct (decide (key g ≤ key f)) as [Hle|Hlt].
    + constructor; [by constructor|]. constructor; [done|].
      eapply Forall_impl; [exact Hg|]. unfold desc. intros h ?. lia.
    + constructor; [by apply IH|]. rewrite insert_desc_perm.
      constructor; [|done]. unfold desc. lia.
Qed.

Lemma insert_desc_stable key f sorted k :
  filter (λ g, key g = k) (Reference.insert_desc key f sorted)
  = filter (λ g, key g = k) (f :: sorted).
Proof.
  induction sorted as [|g rest IH]; simpl; [done|].
  destruct (decide (key g ≤ key f)) as [Hle|Hlt]; [done|].
  rewrite (filter_cons _ g), IH, !(filter_cons _ f), (filter_cons _ g).
  destruct (decide (key f = k)) as [Hf|]; [|done].
  destruct (decide (key g = k)); [lia|done].
Qed.

#[export] Instance sql_engine_laws : SqlEngineLaws Reference.sql_engine.
Proof.
  constructor; simpl; intros key rows; unfold Reference.order_by_desc.
  - induction rows as [|f rows IH]; simpl; [done|]. by rewrite insert_desc_perm, IH.
  - induction rows as [|f rows IH]; simpl; [constructor|]. by apply insert_desc_sorted.
Qed.

#[export] Instance sql_engine_stable : SqlEngineStable Reference.sql_engine.
Proof.
  constructor; simpl; intros key rows k; unfold Reference.order_by_desc.
  induction rows as [|f rows IH]; simpl; [done|].
  by rewrite insert_desc_stable, !(filter_cons _ f), IH.
Qed.

Lemma length_fill n s : String.length (Reference.fill n s) = n.
Proof.
  revert s. induction n as [|n IH]; intros s; [done|].
  destruct s; simpl; by rewrite IH.
Qed.

Lemma all_in_fill n s : all_in bcrypt64 (Reference.fill n s) = true.
Proof.
  revert s. induction n as [|n IH]; intros s; [done|].
  destruct s as [|c r]; simpl; rewrite IH; [done|].
  rewrite andb_true_r. unfold Reference.to_bcrypt64.
  assert (nat_of_ascii c mod 64 < 64)%nat as Hlt by (apply Nat.mod_upper_bound; lia).
  revert Hlt. generalize (nat_of_ascii c mod 64)%nat. intros i Hi.
  do 64 (destruct i as [|i]; [reflexivity|]). lia.
Qed.

Lemma length_append s t :
  String.length (s +:+ t) = (String.length s + String.length t)%nat.
Proof. induction s as [|c s IH]; simpl; [done|]. by rewrite <- IH. Qed.

Lemma all_in_append alphabet s t :
  all_in alphabet (s +:+ t) = all_in alphabet s && all_in alphabet t.
Proof.
  induction s as [|c s IH]; [done|].
  change (String c s +:+ t) with (String c (s +:+ t)). simpl.
  by rewrite IH, andb_assoc.
Qed.

Lemma skip_append s t : Reference.skip (String.length s) (s +:+ t) = t.
Proof. induction s as [|c s IH]; [by destruct t|]. exact IH. Qed.

Lemma reference_digest_well_formed salt secret :
  bcrypt_well_formed (Reference.bcrypt_hash salt secret) = true.
Proof.
  unfold Reference.bcrypt_hash.
  set (data := Reference.fill 22 salt +:+ Reference.fill 31 secret).
  assert (String.length data = 53%nat) as Hlen
    by (unfold data; by rewrite length_append, !length_fill).
  assert (all_in bcrypt64 data = true) as Hall
    by (unfold data; by rewrite all_in_append, !all_in_fill).
  unfold bcrypt_well_formed. cbn [existsb].
  replace (strip_prefix "$2b$" ("$2b$12$" +:+ data)) with (Some ("12$" +:+ data))
    by reflexivity.
  change ("12$" +:+ data) with (String "1" (String "2" (String "$" data))).
  unfold bcrypt_cost_and_data. cbn [Ascii.is_nat].
  rewrite Hall, !bool_decide_eq_true_2 by (done || lia).
  by rewrite !orb_true_r.
Qed.

Lemma append_assoc (s t u : string) : (s +:+ t) +:+ u = s +:+ t +:+ u.
Proof.
  induction s as [|c s IH]; [done|].
  change (String c (s +:+ t) +:+ u = String c (s +:+ t +:+ u)). by rewrite <- IH.
Qed.

Lemma reference_checksum salt secret :
  Reference.skip (String.length (Reference.bcrypt_hash salt secret) - 31)
    (Reference.bcrypt_hash salt secret)
  = Reference.fill 31 secret.
Proof.
  unfold Reference.bcrypt_hash.
  assert (String.length ("$2b$12$" +:+ Reference.fill 22 salt +:+ Reference.fill 31 secret)
          - 31 = String.length ("$2b$12$" +:+ Reference.fill 22 salt))%nat as ->.
  { rewrite !length_append, !length_fill. simpl. lia. }
  rewrite <- append_assoc. apply skip_append.
Qed.

#[export] Instance bcrypt_laws : BcryptLaws Reference.bcrypt.
Proof.
  constructor; simpl.
  - intros salt secret _. reflexivity.
  - intros salt secret Hok. unfold Reference.bcrypt_verify.
    rewrite reference_digest_well_formed, Hok, reference_checksum.
    by rewrite bool_decide_eq_true_2.
Qed.

#[export] Instance bcrypt_parses : BcryptParses Reference.bcrypt.
Proof.
  constructor; simpl.
  - intros salt secret _. apply reference_digest_well_formed.
  - intros secret digest Hwf. unfold Reference.bcrypt_verify. by rewrite Hwf.
  - intros secret digest Hno. unfold Reference.bcrypt_verify.
    by rewrite Hno, andb_false_r.
  - intros secret digest Hwf Hok. unfold Reference.bcrypt_verify.
    by rewrite Hwf, Hok.
Qed.

(** ** Tokens *)

Section Tokens.
Context `{C : Config} `{J : Jose} `{!JoseLaws J}.

Lemma jwt_decode_encode claims key alg now :
  validate_claims claims now = true →
  jwt_decode (jwt_encode claims key alg) key [alg] now = Return claims.
Proof.
  intros Hvalid. unfold jwt_decode.
  rewrite jws_verify_encode by (by apply list_elem_of_singleton). by rewrite Hvalid.
Qed.



(** [create_access_token] returns a token exactly when the expiry is a
    [datetime]. *)
Lemma create_access_token_issued utcnow data expires_delta :
  representable (expire_at utcnow expires_delta) →
  create_access_token utcnow data expires_delta
  = Return (jwt_encode (<["exp" := JNum (timegm (expire_at utcnow expires_delta))]> data)
              SECRET_KEY ALGORITHM).
Proof.
  unfold representable, create_access_token, expire_at, datetime_add.
  intros Hin. destruct expires_delta as [delta|]; [destruct (bool_decide (delta ≠ 0))|];
    by rewrite bool_decide_eq_true_2.
Qed.

Lemma create_access_token_overflow utcnow data expires_delta :
  ¬ representable (expire_at utcnow expires_delta) →
  create_access_token utcnow data expires_delta = Raise OverflowError.
Proof.
  unfold representable, create_access_token, expire_at, datetime_add.
  intros Hout. destruct expires_delta as [delta|]; [destruct (bool_decide (delta ≠ 0))|];
    by rewrite bool_decide_eq_false_2.
Qed.

(** Claim C5, as the code has it.  Issuing a token for a username with an
    [expires_delta] ends with [OverflowError] when the expiry leaves the
    range of [datetime], and returns a token otherwise.  That token,
    validated before its expiry under the same secret, resolves to the user
    row of that username when the username has a row in [users]; when it has
    none (line 193 looks the subject up in the database) validation fails
    with the 401 [credentials_exception], for a username the driver can
    bind. *)
Theorem issue_then_validate utcnow utcnow' username expires_delta db :
  (¬ representable (expire_at utcnow expires_delta) →
   create_access_token utcnow {["sub" := JStr username]} expires_delta
   = Raise OverflowError)
  ∧ (representable (expire_at utcnow expires_delta) →
     ∃ token,
       create_access_token utcnow {["sub" := JStr username]} expires_delta
       = Return token
       ∧ (timegm utcnow' ≤ timegm (expire_at utcnow expires_delta) →
          (username ∈ User.username <$> users db →
           ∃ user,
             get_current_user utcnow' token db = Return user
             ∧ User.username user = username ∧ user ∈ users db)
          ∧ (username ∉ User.username <$> users db →
             holds_NUL username = false →
             get_current_user utcnow' token db = Raise credentials_exception))).
Proof.
  split; [apply create_access_token_overflow|].
  intros Hin. eexists. split; [by apply create_access_token_issued|].
  intros Hexp. unfold get_current_user.
  rewrite jwt_decode_encode by (by apply validate_claims_sub_exp).
  rewrite lookup_insert_ne, lookup_singleton_eq by done.
  destruct (user_by_username db username) as [user|] eqn:Hu.
  - apply first_Some in Hu as [Hin' Hname]. split.
    + intros _. by exists user.
    + intros Hnew. destruct Hnew. rewrite <- Hname. by apply list_elem_of_fmap_2.
  - unfold user_by_username in Hu. rewrite first_None in Hu. split; [|done].
    intros (u & -> & Hin')%list_elem_of_fmap. by destruct (Hu u Hin').
Qed.

End Tokens.

(** Claim C5 does not hold for every username and every ttl: on the empty
    database a token issued for alice a moment ago is refused, and no token
    is issued with a ttl of 9000 years. *)
Lemma issue_then_validate_unregistered :
  issue_and_validate (C := Reference.config) (J := Reference.jose) 0 0
    "alice" (Some (minutes 30)) empty_db
  = Raise credentials_exception
  ∧ issue_and_validate (C := Reference.config) (J := Reference.jose) 0 0
      "alice" (Some (minutes (9000 * 365 * 24 * 60))) Scenario.db4
    = Raise OverflowError.
Proof. split; vm_compute; reflexivity. Qed.

(** ** Passwords *)

Lemma strip_prefix_prefix p s tail :
  strip_prefix p s = Some tail → String.prefix p s = true.
Proof.
  revert s. induction p as [|a p IH]; intros [|b s]; simpl; try done.
  destruct (bool_decide (a = b)) eqn:E; [|done].
  apply bool_decide_eq_true in E as ->. intros Htail.
  destruct (ascii_dec b b); [by apply IH|done].
Qed.

(** A digest that parses carries an identifier. *)
Lemma bcrypt_well_formed_identified digest :
  bcrypt_well_formed digest = true → bcrypt_identify digest = true.
Proof.
  unfold bcrypt_well_formed, bcrypt_identify. cbn [existsb].
  intros Hwf. repeat apply orb_prop in Hwf as [Hwf|Hwf]; try done;
    (match type of Hwf with
     | context [strip_prefix ?ident digest] =>
         destruct (strip_prefix ident digest) eqn:E; [|done];
         apply strip_prefix_prefix in E; rewrite E
     end); by rewrite ?orb_true_r.
Qed.

(** Claim C8, as the code has it.  [verify_password] hands both arguments
    to the password context.  It returns a boolean, and raises nothing, for
    a digest in the format of bcrypt and a plaintext that the handler
    accepts, and that boolean is [true] for a digest that [get_password_hash]
    made from the plaintext.  On any other input it raises: passlib's
    [UnknownHashError] for a digest that carries no bcrypt identifier, and a
    [ValueError] for a digest that carries one and does not parse and for a
    plaintext that the handler refuses. *)
Theorem verify_password_outcomes `{B : Bcrypt} `{!BcryptLaws B} `{!BcryptParses B}
    plain_password hashed_password :
  (bcrypt_well_formed hashed_password = true →
   bcrypt_accepts plain_password = true →
   ∃ b, verify_password plain_password hashed_password = Return b)
  ∧ (∀ salt, get_password_hash salt plain_password = Return hashed_password →
             verify_password plain_password hashed_password = Return true)
  ∧ (bcrypt_identify hashed_password = false →
     verify_password plain_password hashed_password = Raise UnknownHashError)
  ∧ (bcrypt_identify hashed_password = true →
     bcrypt_well_formed hashed_password = false
     ∨ bcrypt_accepts plain_password = false →
     verify_password plain_password hashed_password = Raise ValueError).
Proof.
  unfold verify_password, pwd_context_verify, get_password_hash, pwd_context_hash.
  split_and!.
  - intros Hwf Hok. rewrite (bcrypt_well_formed_identified _ Hwf).
    pose proof (bcrypt_verify_answers plain_password hashed_password Hwf Hok) as Hb.
    destruct (bcrypt_verify plain_password hashed_password) as [b|]; [by exists b|done].
  - intros salt. destruct (bcrypt_accepts plain_password) eqn:Hok; [|done].
    intros [= <-]. by rewrite bcrypt_hash_identified, bcrypt_verify_hash.
  - by intros ->.
  - intros -> [Hwf|Hok];
      [by apply bcrypt_verify_malformed|by apply bcrypt_verify_refused].
Qed.

(** ** Registration *)

(** Claim C10, as the code has it.  A registration whose username or email
    holds NUL ends with the driver's [ValueError] at the query of lines
    209-211.  Otherwise, a registration whose username or email is already
    used ends with the 400 conflict, whatever the password and the salt,
    also for a password that hashing would refuse: the conflict check comes
    before the password is hashed.  A registration that passes the check with
    such a password ends with the [ValueError] of the hashing.  All three
    leave the database exactly as it was, sequences included. *)
Theorem register_conflict `{B : Bcrypt} now salt user db :
  (holds_NUL (UserCreate.username user) = true
   ∨ holds_NUL (UserCreate.email user) = true →
   register now salt user db = (Raise ValueError, db))
  ∧ (holds_NUL (UserCreate.username user) = false →
     holds_NUL (UserCreate.email user) = false →
     ((∃ u, u ∈ users db
            ∧ (User.username u = UserCreate.username user
               ∨ User.email u = UserCreate.email user)) →
      register now salt user db = (Raise already_registered, db))
     ∧ ((∀ u, u ∈ users db →
              User.username u ≠ UserCreate.username user
              ∧ User.email u ≠ UserCreate.email user) →
        bcrypt_accepts (UserCreate.password user) = false →
        register now salt user db = (Raise ValueError, db))).
Proof.
  unfold register, mbind, Handler_bind, query, bound, lift. cbn [existsb].
  split.
  - intros [-> | ->]; by rewrite ?orb_true_r.
  - intros -> ->. cbn [orb]. split.
    + intros Hused. destruct (user_by_username_or_email db _ _) eqn:Hq; [done|].
      unfold user_by_username_or_email in Hq. rewrite first_None in Hq.
      destruct Hused as (u & Hin & Hu). by destruct (Hq u Hin).
    + intros Hfresh Hrefused.
      assert (user_by_username_or_email db (UserCreate.username user)
                (UserCreate.email user) = None) as ->.
      { apply first_None. intros u Hu [?|?]; by destruct (Hfresh u Hu). }
      unfold get_password_hash, pwd_context_hash. by rewrite Hrefused.
Qed.

(** ** Listing *)

Lemma StronglySorted_sublist {A} (R : relation A) (l k : list A) :
  k `sublist_of` l → StronglySorted R l → StronglySorted R k.
Proof.
  induction 1 as [|x k l Hsub IH|x k l Hsub IH]; intros Hs; [done|..].
  - apply StronglySorted_inv in Hs as [Hs Hall]. constructor; [by apply IH|].
    apply Forall_forall. intros y Hy. rewrite Forall_forall in Hall.
    by eapply Hall, elem_of_sublist.
  - apply StronglySorted_inv in Hs as [Hs _]. by apply IH.
Qed.

Lemma format_feature_fields db current_user f r :
  format_feature db current_user f = Some r →
  FeatureResponse.id r = Feature.id f
  ∧ FeatureResponse.vote_count r = Feature.vote_count f.
Proof.
  unfold format_feature. destruct (user_by_id db (Feature.user_id f)); simpl; [|done].
  by intros [= <-].
Qed.

Lemma format_feature_is_Some db current_user f :
  consistent db → f ∈ features db → is_Some (format_feature db current_user f).
Proof.
  intros Hdb Hf. unfold format_feature.
  destruct (proj2 (user_by_id_is_Some db (Feature.user_id f))
              (features_user_id_fkey _ Hdb f Hf)) as [u ->].
  by eexists.
Qed.

Lemma mapM_format_sorted db current_user rows response :
  StronglySorted (desc Feature.vote_count) rows →
  mapM (format_feature db current_user) rows = Some response →
  StronglySorted by_displayed_count response
  ∧ FeatureResponse.id <$> response = Feature.id <$> rows.
Proof.
  intros Hsorted Hm. apply mapM_Some in Hm.
  induction Hm as [|f r rows response Hfr Hm IH]; [by split; [constructor|]|].
  apply StronglySorted_inv in Hsorted as [Hs Hall].
  destruct (IH Hs) as [IH1 IH2].
  apply format_feature_fields in Hfr as [Hid Hcount]. split.
  - constructor; [done|]. clear IH IH1 IH2 Hs.
    induction Hm as [|g q rows response Hgq Hm IH]; [constructor|].
    apply Forall_cons in Hall as [Hg Hall].
    apply format_feature_fields in Hgq as [_ Hc].
    constructor; [|by apply IH].
    unfold by_displayed_count, desc in *. lia.
  - rewrite !fmap_cons. by f_equal.
Qed.

(** Rows sorted by a key, whose rows of each key are sorted by [R], are
    sorted by the key and then by [R]. *)
Lemma StronglySorted_ties {A} (key : A → Z) (R : relation A) (l : list A) :
  (∀ k, StronglySorted R (filter (λ x, key x = k) l)) →
  StronglySorted (λ x y, key y ≤ key x) l →
  StronglySorted (λ x y, key y < key x ∨ (key y = key x ∧ R x y)) l.
Proof.
  induction l as [|x l IH]; intros Hties Hsorted; [constructor|].
  apply StronglySorted_inv in Hsorted as [Hl Hx]. constructor.
  - apply IH; [|done]. intros k. specialize (Hties k).
    rewrite filter_cons in Hties. destruct (decide (key x = k)); [|done].
    by apply StronglySorted_inv in Hties as [? _].
  - apply Forall_forall. intros y Hy. rewrite Forall_forall in Hx.
    specialize (Hx y Hy). destruct (decide (key y = key x)) as [Heq|]; [|left; lia].
    right. split; [done|]. specialize (Hties (key x)).
    rewrite filter_cons_True in Hties by done.
    apply StronglySorted_inv in Hties as [_ Hall]. rewrite Forall_forall in Hall.
    apply Hall. by apply list_elem_of_filter.
Qed.

Lemma mapM_format_StronglySorted db current_user (R : relation Feature.t)
    (R' : relation FeatureResponse.t) rows response :
  (∀ f g r q, format_feature db current_user f = Some r →
              format_feature db current_user g = Some q → R f g → R' r q) →
  StronglySorted R rows →
  mapM (format_feature db current_user) rows = Some response →
  StronglySorted R' response.
Proof.
  intros HR Hsorted Hm. apply mapM_Some in Hm.
  induction Hm as [|f r rows response Hfr Hm IH]; [constructor|].
  apply StronglySorted_inv in Hsorted as [Hs Hall].
  constructor; [by apply IH|]. clear IH Hs.
  induction Hm as [|g q rows response Hgq Hm IH]; [constructor|].
  apply Forall_cons in Hall as [Hg Hall]. constructor; [by eapply HR|by apply IH].
Qed.

Section Listing.
Context `{E : SqlEngine} `{!SqlEngineLaws E}.

(** Claim C9, as the code has it.  On a consistent database, for an offset
    and a limit within bigint, the listing sorted by votes is a page of the
    features ordered by non-increasing stored [vote_count], the count that
    the listing displays; offset and limit cut the page out of the sorted
    rows.  The query names no second key: among equal counts the features
    come by ascending id when the engine's sort keeps the order of the table
    and the table is in insertion order.  An offset or a limit outside
    bigint ends with [DataError]. *)
Theorem get_features_by_votes skip limit db :
  consistent db →
  (0 ≤ skip ≤ bigint_max → 0 ≤ limit ≤ bigint_max →
   ∃ rows response,
     rows ≡ₚ features db
     ∧ StronglySorted (desc Feature.vote_count) rows
     ∧ get_features skip limit "votes" db = Return response
     ∧ FeatureResponse.id <$> response
       = Feature.id <$> take (Z.to_nat limit) (drop (Z.to_nat skip) rows)
     ∧ StronglySorted by_displayed_count response
     ∧ (SqlEngineStable E → in_insertion_order db →
        StronglySorted by_count_then_id response))
  ∧ (¬ (0 ≤ skip ≤ bigint_max ∧ 0 ≤ limit ≤ bigint_max) →
     get_features skip limit "votes" db = Raise DataError).
Proof.
  intros Hdb. split.
  2:{ intros Hout. unfold get_features, offset_limit. simpl.
      by rewrite bool_decide_eq_false_2. }
  intros Hskip Hlimit.
  exists (order_by_desc Feature.vote_count (features db)).
  pose proof (order_by_desc_perm Feature.vote_count (features db)) as Hperm.
  pose proof (order_by_desc_sorted Feature.vote_count (features db)) as Hsorted.
  set (rows := order_by_desc Feature.vote_count (features db)) in *.
  set (page := take (Z.to_nat limit) (drop (Z.to_nat skip) rows)).
  assert (page `sublist_of` rows) as Hsub.
  { etrans; [apply sublist_take|apply sublist_drop]. }
  assert (is_Some (mapM (format_feature db None) page)) as [response Hm].
  { apply mapM_is_Some, Forall_forall. intros f Hf. simpl.
    apply format_feature_is_Some; [done|]. rewrite <- Hperm.
    by eapply elem_of_sublist. }
  assert (StronglySorted (desc Feature.vote_count) page) as Hpage.
  { by apply (StronglySorted_sublist _ rows). }
  destruct (mapM_format_sorted _ _ _ _ Hpage Hm) as [Hs Hids].
  exists response. split_and!; try done.
  - unfold get_features, offset_limit. simpl.
    rewrite bool_decide_eq_true_2 by done. fold rows. fold page. by rewrite Hm.
  - intros Hstable Horder.
    apply (mapM_format_StronglySorted db None
             (λ f g, Feature.vote_count g < Feature.vote_count f
                     ∨ (Feature.vote_count g = Feature.vote_count f
                        ∧ ascending_id f g)) _ page); [| |done].
    + intros f g r q [Hfi Hfc]%format_feature_fields [Hgi Hgc]%format_feature_fields.
      unfold by_count_then_id, ascending_id. rewrite Hfi, Hfc, Hgi, Hgc. tauto.
    + apply (StronglySorted_sublist _ rows); [done|].
      apply StronglySorted_ties; [|done].
      intros k. unfold rows. rewrite order_by_desc_stable.
      apply (StronglySorted_sublist _ (features db)); [apply sublist_filter|done].
Qed.

End Listing.

(** ** Concurrent toggles *)

Lemma vote_feature_flush_consistent now p db :
  consistent db → consistent (vote_feature_flush now p db).2.
Proof.
  intros Hdb. destruct p as [uid fid|v]; simpl.
  - unfold mbind, Handler_bind.
    pose proof (insert_vote_consistent now uid fid 1 db Hdb) as Hc.
    by destruct (insert_vote _ _ _ _ _) as [[] ?].
  - by apply delete_vote_consistent.
Qed.

Lemma step_consistent feature_id current_user s s' :
  step feature_id current_user s s' → consistent s.1 → consistent s'.1.
Proof.
  destruct 1; simpl; [done|]. apply vote_feature_flush_consistent.
Qed.

Lemma steps_consistent feature_id current_user s s' :
  rtc (step feature_id current_user) s s' → consistent s.1 → consistent s'.1.
Proof. induction 1; eauto using step_consistent. Qed.

Lemma votes_of_pair_unique db uid fid :
  consistent db → (length (votes_of_pair db uid fid) ≤ 1)%nat.
Proof.
  intros Hdb. pose proof (user_feature_uc _ Hdb) as Huc.
  unfold votes_of_pair. induction (votes db) as [|v vs IH]; [simpl; lia|].
  rewrite fmap_cons, NoDup_cons in Huc. destruct Huc as [Hv Hvs].
  rewrite filter_cons. destruct (decide (vote_pair v = (uid, fid))) as [Hp|]; [|auto].
  assert (filter (λ w, vote_pair w = (uid, fid)) vs = []) as ->; [|simpl; lia].
  apply head_None, first_None. intros w Hw Hpw. apply Hv.
  rewrite Hp, <- Hpw. by apply list_elem_of_fmap_2.
Qed.

Ltac pool_index i Hi :=
  destruct i as [|[|i]]; simpl in Hi; try discriminate Hi; simplify_eq.

Section Race.
Variables (feature_id : Z) (current_user : User.t) (db : Database).
Hypothesis db_consistent : consistent db.
Hypothesis user_known : current_user ∈ users db.
Hypothesis feature_exists : is_Some (feature_by_id db feature_id).
Hypothesis not_voted : has_voted db (User.id current_user) feature_id = false.

#[local] Abbreviation ins := (PendingInsert (User.id current_user) feature_id).

Lemma select_insert :
  vote_feature_select feature_id current_user db = Return ins.
Proof.
  unfold vote_feature_select. destruct feature_exists as [f ->].
  by rewrite (proj1 (has_voted_select _ _ _) not_voted).
Qed.

(** The first flush wins. *)
Lemma flush_winner now :
  vote_feature_flush now ins db
  = (Return vote_added,
     with_votes db (votes db ++ [new_vote now (User.id current_user) feature_id db])
                (votes_id_seq db + 1)).
Proof.
  simpl. unfold mbind, Handler_bind.
  rewrite insert_vote_fresh; eauto using user_row_id.
Qed.

(** The second flush is refused by the uniqueness constraint. *)
Lemma flush_loser now now' :
  vote_feature_flush now' ins (vote_feature_flush now ins db).2
  = (Raise IntegrityError,
     with_votes db (votes db ++ [new_vote now (User.id current_user) feature_id db])
                (votes_id_seq db + 2)).
Proof.
  rewrite flush_winner. simpl. unfold mbind, Handler_bind.
  rewrite insert_vote_duplicate by apply insert_vote_has_voted.
  simpl. unfold with_votes. simpl. do 2 f_equal. lia.
Qed.

Lemma winner_row now seq :
  length (votes_of_pair
            (with_votes db
               (votes db ++ [new_vote now (User.id current_user) feature_id db]) seq)
            (User.id current_user) feature_id) = 1%nat.
Proof.
  unfold votes_of_pair. simpl. rewrite filter_app, (filter_singleton _ _ []).
  rewrite decide_True by done.
  assert (filter (λ v, vote_pair v = (User.id current_user, feature_id)) (votes db) = [])
    as ->; [|done].
  apply head_None, first_None. intros v Hv.
  by apply (proj1 (has_voted_false _ _ _) not_voted).
Qed.

#[local] Arguments vote_feature_flush : simpl never.

(** Claim C3, as the code has it.  Two requests toggle the same pair from
    the no-vote state and both read before either flushes, so both take the
    insert path.  Such runs exist; in every completed one exactly one request
    answers [voted = true] and the other ends with the [IntegrityError] of
    the uniqueness constraint, with one Vote row for the pair; and no run of
    the two requests ever holds two rows for the pair. *)
Theorem concurrent_insert_one_winner :
  rtc (step feature_id current_user)
      (db, [Received; Received]) (db, [Selected ins; Selected ins])
  ∧ (∃ now now',
       rtc (step feature_id current_user)
         (db, [Selected ins; Selected ins])
         ((vote_feature_flush now' ins (vote_feature_flush now ins db).2).2,
          [Responded (Return vote_added); Responded (Raise IntegrityError)]))
  ∧ (∀ db' o1 o2,
       rtc (step feature_id current_user)
         (db, [Selected ins; Selected ins]) (db', [Responded o1; Responded o2]) →
       ((o1 = Return vote_added ∧ o2 = Raise IntegrityError)
        ∨ (o1 = Raise IntegrityError ∧ o2 = Return vote_added))
       ∧ length (votes_of_pair db' (User.id current_user) feature_id) = 1%nat)
  ∧ (∀ db' pool,
       rtc (step feature_id current_user) (db, [Received; Received]) (db', pool) →
       (length (votes_of_pair db' (User.id current_user) feature_id) ≤ 1)%nat).
Proof.
  split_and!.
  - eapply rtc_l; [by apply step_select with (i := 0%nat)|].
    eapply rtc_l; [by apply step_select with (i := 1%nat)|].
    rewrite select_insert. done.
  - exists 0, 0.
    eapply rtc_l; [by apply step_flush with (i := 0%nat) (now := 0)|].
    eapply rtc_l; [by apply step_flush with (i := 1%nat) (now := 0)|].
    rewrite flush_loser, flush_winner. done.
  - intros db' o1 o2 Hrun.
    inversion Hrun as [|? [db1 pool1] ? Hstep1 Hrun1]; subst.
    inversion Hstep1 as [? ? i Hi|? ? i p now Hi]; subst; pool_index i Hi;
      inversion Hrun1 as [|? [db2 pool2] ? Hstep2 Hrun2]; subst;
      inversion Hstep2 as [? ? i Hi|? ? i p now' Hi]; subst; pool_index i Hi;
      rewrite flush_loser, flush_winner in Hrun2; simpl in Hrun2;
      (inversion Hrun2 as [|? [db3 pool3] ? Hstep3 Hrun3]; subst;
       [|inversion Hstep3 as [? ? i Hi|? ? i p now'' Hi]; subst; pool_index i Hi]).
    + split; [by left|apply winner_row].
    + split; [by right|apply winner_row].
  - intros db' pool Hrun. apply votes_of_pair_unique.
    by apply (steps_consistent _ _ _ _ Hrun).
Qed.

End Race.

(** ** The stored counter *)

Lemma vote_feature_features now feature_id current_user db :
  features (vote_feature now feature_id current_user db).2 = features db.
Proof.
  rewrite vote_feature_phases. unfold vote_feature_select.
  destruct (feature_by_id _ _); [|done].
  destruct (vote_by_user_and_feature _ _ _); simpl; [done|].
  unfold mbind, Handler_bind, insert_vote.
  by destruct (_ || _).
Qed.

(** What the other endpoints do to the table of features. *)
Lemma register_features `{B : Bcrypt} now salt user db :
  features (register now salt user db).2 = features db.
Proof.
  unfold register, mbind, Handler_bind, query, bound, lift, insert_user, bound.
  repeat case_match; by simplify_eq/=.
Qed.

Lemma create_feature_features now feature current_user db :
  features (create_feature now feature current_user db).2 = features db
  ∨ ∃ title,
      features (create_feature now feature current_user db).2
      = features db ++ [Feature.mk (features_id_seq db) title
                          (FeatureCreate.description feature) (User.id current_user)
                          0 status_open now now].
Proof.
  unfold create_feature, mbind, Handler_bind, insert_feature, bound.
  repeat case_match; simplify_eq/=; eauto.
Qed.

Lemma delete_feature_features feature_id current_user db :
  features (delete_feature feature_id current_user db).2 = features db
  ∨ ∃ fid,
      features (delete_feature feature_id current_user db).2
      = filter (λ g, Feature.id g ≠ fid) (features db).
Proof.
  unfold delete_feature, mbind, Handler_bind, query, delete_feature_row.
  repeat case_match; simplify_eq/=; eauto.
Qed.

(** No endpoint writes [vote_count] after the column default: it is 0 in
    every row of every reachable state, whatever the votes. *)
Lemma reachable_vote_count `{B : Bcrypt} db :
  reachable db → ∀ f, f ∈ features db → Feature.vote_count f = 0.
Proof.
  induction 1 as [|now salt user db _ IH|now feature u db _ IH _
                  |now fid u db _ IH _|fid u db _ IH _]; intros f.
  - by intros ?%elem_of_nil.
  - rewrite register_features. apply IH.
  - destruct (create_feature_features now feature u db) as [->|[title ->]];
      [apply IH|].
    intros [Hf| ->%list_elem_of_singleton]%elem_of_app; [by apply IH|done].
  - rewrite vote_feature_features. apply IH.
  - destruct (delete_feature_features fid u db) as [->|[fid' ->]]; [apply IH|].
    intros [_ Hf]%list_elem_of_filter. by apply IH.
Qed.

(** The table of features of a reachable state is in insertion order. *)
Lemma reachable_in_insertion_order `{B : Bcrypt} db :
  reachable db → in_insertion_order db.
Proof.
  unfold in_insertion_order.
  induction 1 as [|now salt user db _ IH|now feature u db Hdb IH _
                  |now fid u db _ IH _|fid u db _ IH _].
  - constructor.
  - by rewrite register_features.
  - destruct (create_feature_features now feature u db) as [->|[title ->]]; [done|].
    apply StronglySorted_app_2; [|done|repeat constructor].
    intros f g Hf ->%list_elem_of_singleton. unfold ascending_id. simpl.
    by apply (features_id_seq_fresh _ (reachable_consistent _ Hdb)).
  - by rewrite vote_feature_features.
  - destruct (delete_feature_features fid u db) as [->|[fid' ->]]; [done|].
    apply (StronglySorted_sublist _ (features db)); [apply sublist_filter|done].
Qed.

Lemma db5_reachable : reachable (B := Reference.bcrypt) Scenario.db5.
Proof.
  apply (reachable_vote_feature 5000 2 Scenario.alice_row Scenario.db4).
  2:{ vm_compute. repeat constructor. }
  apply (reachable_create_feature 4000 _ Scenario.alice_row Scenario.db3).
  2:{ vm_compute. repeat constructor. }
  apply (reachable_create_feature 3000 _ Scenario.alice_row Scenario.db2).
  2:{ vm_compute. repeat constructor. }
  apply (reachable_register 2000 "salt" Scenario.bob Scenario.db1).
  apply (reachable_register 1000 "salt" Scenario.alice empty_db).
  apply reachable_empty.
Qed.

Lemma db4_consistent : consistent Scenario.db4.
Proof.
  apply (reachable_consistent (B := Reference.bcrypt)).
  apply (reachable_create_feature 4000 _ Scenario.alice_row Scenario.db3).
  2:{ vm_compute. repeat constructor. }
  apply (reachable_create_feature 3000 _ Scenario.alice_row Scenario.db2).
  2:{ vm_compute. repeat constructor. }
  apply (reachable_register 2000 "salt" Scenario.bob Scenario.db1).
  apply (reachable_register 1000 "salt" Scenario.alice empty_db).
  apply reachable_empty.
Qed.

Lemma db5_consistent : consistent Scenario.db5.
Proof. apply (reachable_consistent (B := Reference.bcrypt)), db5_reachable. Qed.

(** Claim C1, at a state the endpoints reach: after alice's vote for F2 one
    Vote row references F2 and the listing displays [vote_count = 0] for
    it. *)
Theorem vote_count_not_maintained :
  reachable (B := Reference.bcrypt) Scenario.db5
  ∧ count_votes Scenario.db5 2 = 1
  ∧ get_features (E := Reference.sql_engine) 0 100 "votes" Scenario.db5
    = Return [Scenario.F1_response; Scenario.F2_response]
  ∧ FeatureResponse.vote_count Scenario.F2_response = 0.
Proof. split; [apply db5_reachable|]. by vm_compute. Qed.

(** Claim C9 does not hold.  F2 has one Vote row and F1 none, and the
    listing sorted by votes shows F1 before F2; and with a limit of [2^63]
    the listing ends with [DataError]. *)
Lemma get_features_by_votes_ignores_votes :
  count_votes Scenario.db5 1 = 0
  ∧ count_votes Scenario.db5 2 = 1
  ∧ get_features (E := Reference.sql_engine) 0 10 "votes" Scenario.db5
    = Return [Scenario.F1_response; Scenario.F2_response]
  ∧ get_features (E := Reference.sql_engine) 0 (2 ^ 63) "votes" Scenario.db5
    = Raise DataError.
Proof. by vm_compute. Qed.

(** ** Deleting a feature *)

Lemma delete_feature_referenced feature_id current_user db f :
  feature_by_id_and_owner db feature_id (User.id current_user) = Some f →
  votes_of_feature db (Feature.id f) ≠ [] →
  delete_feature feature_id current_user db = (Raise IntegrityError, db).
Proof.
  intros Hf Hvotes. unfold delete_feature, mbind, Handler_bind, query.
  rewrite Hf. unfold delete_feature_row. by rewrite bool_decide_eq_true_2.
Qed.

Lemma delete_feature_unreferenced feature_id current_user db f :
  feature_by_id_and_owner db feature_id (User.id current_user) = Some f →
  votes_of_feature db (Feature.id f) = [] →
  delete_feature feature_id current_user db
  = (Return "Feature deleted successfully"%string,
     with_features db (filter (λ g, Feature.id g ≠ Feature.id f) (features db))
                   (features_id_seq db)).
Proof.
  intros Hf Hvotes. unfold delete_feature, mbind, Handler_bind, query.
  rewrite Hf. unfold delete_feature_row. by rewrite bool_decide_eq_false_2 by auto.
Qed.

(** Claim C7, at a state the endpoints reach: alice owns F2 and F2 has one
    Vote row; her [delete_feature] ends with [IntegrityError] and removes
    neither F2 nor the vote. *)
Theorem delete_feature_keeps_voted_feature :
  feature_by_id_and_owner Scenario.db5 2 (User.id Scenario.alice_row)
  = feature_by_id Scenario.db5 2
  ∧ is_Some (feature_by_id Scenario.db5 2)
  ∧ count_votes Scenario.db5 2 = 1
  ∧ delete_feature 2 Scenario.alice_row Scenario.db5
    = (Raise IntegrityError, Scenario.db5).
Proof. split_and!; [done|by eexists|done|done]. Qed.

(** Claim C3 does not hold for the loser's outcome: both requests read the
    no-vote state, the first flush answers [voted = true], and the second
    flush raises [IntegrityError], which [vote_feature] does not catch. *)
Lemma concurrent_insert_loser_raises :
  has_voted Scenario.db4 1 1 = false
  ∧ vote_feature_select 1 Scenario.alice_row Scenario.db4
    = Return (PendingInsert 1 1)
  ∧ (vote_feature_flush 5000 (PendingInsert 1 1) Scenario.db4).1
    = Return vote_added
  ∧ (vote_feature_flush 5001 (PendingInsert 1 1)
       (vote_feature_flush 5000 (PendingInsert 1 1) Scenario.db4).2).1
    = Raise IntegrityError.
Proof. by vm_compute. Qed.

(** ** The theorems at the scenario *)

Lemma alice_known : Scenario.alice_row ∈ users Scenario.db4.
Proof. vm_compute. repeat constructor. Qed.

Lemma F1_exists : is_Some (feature_by_id Scenario.db4 1).
Proof. by eexists. Qed.

Lemma vote_feature_toggles_witness :
  consistent Scenario.db4
  ∧ Scenario.alice_row ∈ users Scenario.db4
  ∧ is_Some (feature_by_id Scenario.db4 1)
  ∧ ((vote_feature 5000 1 Scenario.alice_row Scenario.db4).1 = Return vote_added
     ∨ (vote_feature 5000 1 Scenario.alice_row Scenario.db4).1 = Return vote_removed).
Proof.
  split_and!; [apply db4_consistent|apply alice_known|apply F1_exists|].
  apply (vote_feature_toggles 5000 1 Scenario.alice_row Scenario.db4
           db4_consistent alice_known F1_exists).
Defined.

Lemma vote_feature_twice_witness :
  consistent Scenario.db4
  ∧ Scenario.alice_row ∈ users Scenario.db4
  ∧ is_Some (feature_by_id Scenario.db4 1)
  ∧ ∃ db' db'',
      (vote_feature 5000 1 Scenario.alice_row Scenario.db4).2 = db'
      ∧ (vote_feature 6000 1 Scenario.alice_row db').2 = db''
      ∧ ∀ fid, count_votes db'' fid = count_votes Scenario.db4 fid.
Proof.
  split_and!; [apply db4_consistent|apply alice_known|apply F1_exists|].
  destruct (vote_feature_twice 5000 6000 1 Scenario.alice_row Scenario.db4
              db4_consistent alice_known F1_exists)
    as (db' & db'' & E1 & E2 & _ & _ & _ & Hcount & _).
  exists db', db''. split_and!; [rewrite E1; reflexivity|rewrite E2; reflexivity|].
  exact Hcount.
Defined.

(** Claim C4 does not hold from every state: alice has voted for F2, her
    two toggles answer [voted = false] and then [voted = true], and she has
    voted for F2 afterwards. *)
Lemma vote_feature_twice_from_voted :
  has_voted Scenario.db5 (User.id Scenario.alice_row) 2 = true
  ∧ (vote_feature 6000 2 Scenario.alice_row Scenario.db5).1 = Return vote_removed
  ∧ (vote_feature 7000 2 Scenario.alice_row
       (vote_feature 6000 2 Scenario.alice_row Scenario.db5).2).1
    = Return vote_added
  ∧ has_voted
      (vote_feature 7000 2 Scenario.alice_row
         (vote_feature 6000 2 Scenario.alice_row Scenario.db5).2).2
      (User.id Scenario.alice_row) 2
    = true.
Proof. by vm_compute. Qed.

Lemma concurrent_insert_one_winner_witness :
  consistent Scenario.db4
  ∧ Scenario.alice_row ∈ users Scenario.db4
  ∧ is_Some (feature_by_id Scenario.db4 1)
  ∧ has_voted Scenario.db4 (User.id Scenario.alice_row) 1 = false
  ∧ rtc (step 1 Scenario.alice_row)
        (Scenario.db4, [Received; Received])
        (Scenario.db4, [Selected (PendingInsert 1 1); Selected (PendingInsert 1 1)]).
Proof.
  split_and!; [apply db4_consistent|apply alice_known|apply F1_exists|done|].
  apply (concurrent_insert_one_winner 1 Scenario.alice_row Scenario.db4
           db4_consistent alice_known F1_exists eq_refl).
Defined.

Lemma issue_then_validate_witness :
  JoseLaws Reference.jose
  ∧ representable (expire_at 0 (Some (minutes 30)))
  ∧ timegm 1 ≤ timegm (expire_at 0 (Some (minutes 30)))
  ∧ "alice"%string ∈ User.username <$> users Scenario.db4
  ∧ ∃ token user,
      create_access_token (C := Reference.config) (J := Reference.jose) 0
        {["sub" := JStr "alice"]} (Some (minutes 30))
      = Return token
      ∧ get_current_user (C := Reference.config) (J := Reference.jose) 1 token
          Scenario.db4
        = Return user
      ∧ User.username user = "alice"%string ∧ user ∈ users Scenario.db4.
Proof.
  assert ("alice"%string ∈ User.username <$> users Scenario.db4) as Hreg
    by (vm_compute; repeat constructor).
  assert (timegm 1 ≤ timegm (expire_at 0 (Some (minutes 30)))) as Hexp
    by (by vm_compute).
  assert (representable (expire_at 0 (Some (minutes 30)))) as Hrep
    by (split; by vm_compute).
  split_and!; [apply jose_laws|exact Hrep|exact Hexp|exact Hreg|].
  destruct (issue_then_validate (C := Reference.config) (J := Reference.jose)
              0 1 "alice" (Some (minutes 30)) Scenario.db4) as [_ Hissue].
  destruct (Hissue Hrep) as (token & Etoken & Hvalidate).
  destruct (Hvalidate Hexp) as [Hrow _].
  destruct (Hrow Hreg) as (user & Euser & Hname & Hin).
  exists token, user. split_and!; [exact Etoken|exact Euser|exact Hname|exact Hin].
Defined.


Lemma db_counted_consistent : consistent Scenario.db_counted.
Proof.
  constructor;
    try (apply (bool_decide_unpack _); by vm_compute);
    try (apply (proj1 (Forall_forall _ _)); apply (bool_decide_unpack _);
         by vm_compute);
    by intros ? ?%elem_of_nil.
Qed.

Lemma db_counted_in_insertion_order : in_insertion_order Scenario.db_counted.
Proof. repeat constructor. Qed.

Lemma get_features_by_votes_witness :
  SqlEngineLaws Reference.sql_engine ∧ SqlEngineStable Reference.sql_engine
  ∧ consistent Scenario.db_counted ∧ in_insertion_order Scenario.db_counted
  ∧ 0 ≤ 0 ≤ bigint_max ∧ 0 ≤ 10 ≤ bigint_max
  ∧ ∃ response,
      get_features (E := Reference.sql_engine) 0 10 "votes" Scenario.db_counted
      = Return response
      ∧ FeatureResponse.vote_count <$> response = [3; 3; 1]
      ∧ FeatureResponse.id <$> response = [2; 3; 1]
      ∧ StronglySorted by_count_then_id response.
Proof.
  assert (0 ≤ 0 ≤ bigint_max) as Hskip by (split; by vm_compute).
  assert (0 ≤ 10 ≤ bigint_max) as Hlimit by (split; by vm_compute).
  refine (conj sql_engine_laws (conj sql_engine_stable
            (conj db_counted_consistent (conj db_counted_in_insertion_order
               (conj Hskip (conj Hlimit _)))))).
  destruct (get_features_by_votes (E := Reference.sql_engine) 0 10
              Scenario.db_counted db_counted_consistent) as [Hpage _].
  destruct (Hpage Hskip Hlimit) as (rows & response & _ & _ & E & _ & _ & Hties).
  exists response.
  assert (∃ r2 r3 r1,
            get_features (E := Reference.sql_engine) 0 10 "votes" Scenario.db_counted
            = Return [r2; r3; r1]
            ∧ FeatureResponse.vote_count <$> [r2; r3; r1] = [3; 3; 1]
            ∧ FeatureResponse.id <$> [r2; r3; r1] = [2; 3; 1])
    as (r2 & r3 & r1 & E' & Hcounts & Hids)
    by (do 3 eexists; split_and!; vm_compute; reflexivity).
  rewrite E in E'. injection E' as ->.
  split_and!; [exact E|exact Hcounts|exact Hids|].
  exact (Hties sql_engine_stable db_counted_in_insertion_order).
Defined.

Lemma register_conflict_witness :
  holds_NUL (UserCreate.username Scenario.alice) = false
  ∧ holds_NUL (UserCreate.email Scenario.alice) = false
  ∧ (∃ u, u ∈ users Scenario.db4
          ∧ (User.username u = UserCreate.username Scenario.alice
             ∨ User.email u = UserCreate.email Scenario.alice))
  ∧ register (B := Reference.bcrypt) 7000 "salt" Scenario.alice Scenario.db4
    = (Raise already_registered, Scenario.db4).
Proof.
  assert (∃ u, u ∈ users Scenario.db4
               ∧ (User.username u = UserCreate.username Scenario.alice
                  ∨ User.email u = UserCreate.email Scenario.alice)) as Hused.
  { exists Scenario.alice_row. split; [apply alice_known|by left]. }
  split_and!; [reflexivity|reflexivity|exact Hused|].
  destruct (register_conflict (B := Reference.bcrypt) 7000 "salt" Scenario.alice
              Scenario.db4) as [_ Hbound].
  destruct (Hbound eq_refl eq_refl) as [Hconflict _]. exact (Hconflict Hused).
Defined.

(** Claim C10 does not hold for every request: mallory's email is alice's,
    which is taken, her username holds NUL, and her registration ends with
    [ValueError], not with the conflict. *)
Lemma register_conflict_unbindable :
  holds_NUL (UserCreate.username Scenario.mallory) = true
  ∧ user_by_username_or_email Scenario.db4 (UserCreate.username Scenario.mallory)
      (UserCreate.email Scenario.mallory)
    = Some Scenario.alice_row
  ∧ register (B := Reference.bcrypt) 7000 "salt" Scenario.mallory Scenario.db4
    = (Raise ValueError, Scenario.db4).
Proof. by vm_compute. Qed.

Lemma verify_password_outcomes_witness :
  BcryptLaws Reference.bcrypt
  ∧ get_password_hash (B := Reference.bcrypt) "salt" "wonderland"
    = Return (User.password_hash Scenario.alice_row)
  ∧ verify_password (B := Reference.bcrypt) "wonderland"
      (User.password_hash Scenario.alice_row)
    = Return true.
Proof.
  assert (get_password_hash (B := Reference.bcrypt) "salt" "wonderland"
          = Return (User.password_hash Scenario.alice_row)) as Hhash by reflexivity.
  split_and!; [apply bcrypt_laws|exact Hhash|].
  destruct (verify_password_outcomes (B := Reference.bcrypt) "wonderland"
              (User.password_hash Scenario.alice_row)) as (_ & Hmade & _).
  exact (Hmade "salt"%string Hhash).
Defined.

(** Claim C8 does not hold: [verify_password] raises [UnknownHashError] on a
    digest that is no bcrypt digest, and [ValueError] on a digest that
    carries the identifier of bcrypt and nothing that parses, on a plaintext
    that holds NUL and on a plaintext of 4097 characters. *)
Lemma verify_password_malformed_raises :
  (bcrypt_identify "not-a-bcrypt-digest" = false
   ∧ verify_password (B := Reference.bcrypt) "wonderland" "not-a-bcrypt-digest"
     = Raise UnknownHashError)
  ∧ (bcrypt_identify "$2b$wonderland" = true
     ∧ verify_password (B := Reference.bcrypt) "wonderland" "$2b$wonderland"
       = Raise ValueError)
  ∧ (bcrypt_well_formed (User.password_hash Scenario.alice_row) = true
     ∧ verify_password (B := Reference.bcrypt) (String "000"%char "wonderland")
         (User.password_hash Scenario.alice_row)
       = Raise ValueError
     ∧ verify_password (B := Reference.bcrypt) (Reference.fill 4097 "")
         (User.password_hash Scenario.alice_row)
       = Raise ValueError).
Proof. by vm_compute. Qed.

(** * Further properties of the endpoints *)

(** ** What every reachable state satisfies *)

(** Property X1.  In every state the endpoints reach, a (user, feature) pair
    has at most one Vote row, every vote references an existing user and an
    existing feature, every feature an existing owner, and no two user rows
    share a username or an email. *)
Theorem reachable_votes_unique `{B : Bcrypt} db :
  reachable db →
  (∀ uid fid, (length (votes_of_pair db uid fid) ≤ 1)%nat)
  ∧ (∀ v, v ∈ votes db →
          is_Some (user_by_id db (Vote.user_id v))
          ∧ is_Some (feature_by_id db (Vote.feature_id v)))
  ∧ (∀ f, f ∈ features db → is_Some (user_by_id db (Feature.user_id f)))
  ∧ (∀ u u', u ∈ users db → u' ∈ users db →
             User.username u = User.username u' ∨ User.email u = User.email u' →
             u = u').
Proof.
  intros Hdb%reachable_consistent. split_and!.
  - intros uid fid. by apply votes_of_pair_unique.
  - intros v Hv. split.
    + by apply user_by_id_is_Some, (votes_user_id_fkey _ Hdb).
    + by apply feature_by_id_is_Some, (votes_feature_id_fkey _ Hdb).
  - intros f Hf. by apply user_by_id_is_Some, (features_user_id_fkey _ Hdb).
  - intros u u' Hu Hu' [Hn|He].
    + by apply (unique_key User.username (users db)); [apply Hdb|..].
    + by apply (unique_key User.email (users db)); [apply Hdb|..].
Qed.

Lemma reachable_votes_unique_witness :
  reachable (B := Reference.bcrypt) Scenario.db5
  ∧ ∀ uid fid, (length (votes_of_pair Scenario.db5 uid fid) ≤ 1)%nat.
Proof.
  split; [apply db5_reachable|].
  apply (reachable_votes_unique (B := Reference.bcrypt) Scenario.db5 db5_reachable).
Defined.

(** What the endpoints do to the table of users. *)
Lemma register_users `{B : Bcrypt} now salt user db :
  users (register now salt user db).2 = users db
  ∨ ∃ name mail digest hash,
      varchar 50 (UserCreate.username user) = Some name
      ∧ varchar 100 (UserCreate.email user) = Some mail
      ∧ get_password_hash salt (UserCreate.password user) = Return digest
      ∧ varchar 255 digest = Some hash
      ∧ users (register now salt user db).2
        = users db ++ [User.mk (users_id_seq db) name mail hash now now].
Proof.
  unfold register, mbind, Handler_bind, query, bound, lift, insert_user, bound.
  repeat case_match; simplify_eq/=; eauto 10.
Qed.

Lemma create_feature_users now feature current_user db :
  users (create_feature now feature current_user db).2 = users db.
Proof.
  unfold create_feature, mbind, Handler_bind, insert_feature, bound.
  repeat case_match; by simplify_eq/=.
Qed.

Lemma vote_feature_users now feature_id current_user db :
  users (vote_feature now feature_id current_user db).2 = users db.
Proof.
  unfold vote_feature, mbind, Handler_bind, query, raise, insert_vote, delete_vote.
  repeat case_match; by simplify_eq/=.
Qed.

Lemma delete_feature_users feature_id current_user db :
  users (delete_feature feature_id current_user db).2 = users db.
Proof.
  unfold delete_feature, mbind, Handler_bind, query, raise, delete_feature_row.
  repeat case_match; by simplify_eq/=.
Qed.

(** Every stored digest is one the password context made. *)
Lemma reachable_password_hash `{B : Bcrypt} db :
  reachable db →
  ∀ u, u ∈ users db →
       ∃ salt password digest,
         get_password_hash salt password = Return digest
         ∧ varchar 255 digest = Some (User.password_hash u).
Proof.
  induction 1 as [|now salt user db _ IH|now feature cu db _ IH _
                  |now fid cu db _ IH _|fid cu db _ IH _]; intros u.
  - by intros ?%elem_of_nil.
  - destruct (register_users now salt user db)
      as [->|(name & mail & digest & hash & _ & _ & Hd & Hh & ->)]; [apply IH|].
    intros [Hu| ->%list_elem_of_singleton]%elem_of_app; [by apply IH|].
    simpl. eauto.
  - rewrite create_feature_users. apply IH.
  - rewrite vote_feature_users. apply IH.
  - rewrite delete_feature_users. apply IH.
Qed.

(** ** The shape of a bcrypt digest *)

Lemma strip_prefix_Some p s tail : strip_prefix p s = Some tail → s = p +:+ tail.
Proof.
  revert s. induction p as [|a p IH]; intros s; simpl.
  - intros [= ->]. reflexivity.
  - destruct s as [|b s]; [done|].
    destruct (bool_decide (a = b)) eqn:E; [|done].
    apply bool_decide_eq_true in E as ->. intros ->%IH. reflexivity.
Qed.

Lemma holds_NUL_append s t : holds_NUL (s +:+ t) = holds_NUL s || holds_NUL t.
Proof.
  induction s as [|c s IH]; [done|].
  change (String c s +:+ t) with (String c (s +:+ t)). simpl.
  by rewrite IH, orb_assoc.
Qed.

Lemma characters_length s : (characters s ≤ String.length s)%nat.
Proof. induction s as [|c s IH]; simpl; [done|]. destruct (continuation c); lia. Qed.

Lemma all_in_bcrypt64_no_NUL s : all_in bcrypt64 s = true → holds_NUL s = false.
Proof.
  induction s as [|c s IH]; [done|]. simpl. intros [Hc Hs]%andb_prop.
  rewrite (IH Hs), orb_false_r. apply bool_decide_eq_false_2. by intros ->.
Qed.

(** What [String(255)] keeps of a digest carries the identifier that the
    digest carries. *)
Lemma split_characters_spec n s :
  s = (split_characters n s).1 +:+ (split_characters n s).2
  ∧ ((split_characters n s).2 = EmptyString
     ∨ (n ≤ String.length (split_characters n s).1)%nat).
Proof.
  revert n. induction s as [|c s IH]; intros n; simpl; [by split; [|left]|].
  destruct (continuation c).
  - destruct (IH n) as [Hs Hn]. destruct (split_characters n s) as [a b]. simpl in *.
    split; [by rewrite Hs at 1|]. destruct Hn; [by left|right; lia].
  - destruct n as [|m]; [split; [done|right; simpl; lia]|].
    destruct (IH m) as [Hs Hn]. destruct (split_characters m s) as [a b]. simpl in *.
    split; [by rewrite Hs at 1|]. destruct Hn; [by left|right; lia].
Qed.

Lemma prefix_append p a b :
  (String.length p ≤ String.length a)%nat →
  String.prefix p (a +:+ b) = String.prefix p a.
Proof.
  revert a. induction p as [|c p IH]; intros a Hlen; [by destruct a, b|].
  destruct a as [|d a]; simpl in Hlen; [lia|].
  change (String d a +:+ b) with (String d (a +:+ b)). simpl.
  destruct (ascii_dec c d); [|done]. apply IH. lia.
Qed.

Lemma append_empty s : s +:+ "" = s.
Proof.
  induction s as [|c s IH]; [done|].
  change (String c (s +:+ "") = String c s). by rewrite IH.
Qed.

Lemma varchar_identify digest stored :
  varchar 255 digest = Some stored → bcrypt_identify stored = bcrypt_identify digest.
Proof.
  unfold varchar. destruct (too_long digest 255); [|by intros [= ->]].
  destruct (split_characters_spec 255 digest) as [Hs Hn].
  destruct (split_characters 255 digest) as [a b]. simpl in *.
  destruct (only_spaces b); [|done]. intros [= <-].
  destruct Hn as [-> | Hlen]; [by rewrite append_empty in Hs; subst|].
  rewrite Hs. unfold bcrypt_identify. cbn [existsb].
  by rewrite !prefix_append by (simpl; lia).
Qed.

(** A digest that parses holds no NUL and fits [String(255)]. *)
Lemma bcrypt_well_formed_stored digest :
  bcrypt_well_formed digest = true →
  holds_NUL digest = false ∧ varchar 255 digest = Some digest.
Proof.
  unfold bcrypt_well_formed. cbn [existsb]. intros Hwf.
  assert (∃ ident tail,
            ident ∈ ["$2$"; "$2a$"; "$2y$"; "$2b$"]%string
            ∧ digest = ident +:+ tail ∧ bcrypt_cost_and_data tail = true)
    as (ident & tail & Hident & -> & Htail).
  { repeat apply orb_prop in Hwf as [Hwf|Hwf]; try done;
      (match type of Hwf with
       | context [strip_prefix ?ident digest] =>
           destruct (strip_prefix ident digest) as [tail|] eqn:E; [|done];
           apply strip_prefix_Some in E; exists ident, tail;
           (split_and!; [|done|done])
       end); set_solver. }
  destruct tail as [|d1 [|d2 [|sep data]]]; try done.
  unfold bcrypt_cost_and_data in Htail.
  destruct (Ascii.is_nat d1) as [m|] eqn:E1; [|done].
  destruct (Ascii.is_nat d2) as [n|] eqn:E2; [|done].
  apply andb_prop in Htail as [[[_ Hsep]%andb_prop Hlen]%andb_prop Hdata].
  apply bool_decide_eq_true in Hsep as ->. apply bool_decide_eq_true in Hlen.
  assert (holds_NUL (String d1 (String d2 (String "$" data))) = false) as Hnul.
  { assert (d1 ≠ "000"%char) by (intros ->; by vm_compute in E1).
    assert (d2 ≠ "000"%char) by (intros ->; by vm_compute in E2).
    simpl. rewrite (all_in_bcrypt64_no_NUL _ Hdata).
    by rewrite (bool_decide_eq_false_2 (d1 = _)), (bool_decide_eq_false_2 (d2 = _)). }
  split.
  - rewrite holds_NUL_append, Hnul, orb_false_r.
    repeat apply elem_of_cons in Hident as [->|Hident]; try done.
    by apply elem_of_nil in Hident.
  - unfold varchar, too_long. rewrite bool_decide_eq_false_2; [done|].
    pose proof (characters_length (ident +:+ String d1 (String d2 (String "$" data)))) as Hc.
    rewrite length_append in Hc. simpl in Hc. rewrite Hlen in Hc.
    assert (String.length ident ≤ 4)%nat; [|lia].
    repeat apply elem_of_cons in Hident as [->|Hident]; simpl; try lia.
    by apply elem_of_nil in Hident.
Qed.

(** ** Registration and login *)

Lemma user_by_username_snoc db us row seq :
  (∀ u, u ∈ users db → User.username u ≠ User.username row) →
  us = users db ++ [row] →
  user_by_username (with_users db us seq) (User.username row) = Some row.
Proof.
  intros Hfresh ->. unfold user_by_username. simpl.
  rewrite filter_app, (filter_singleton _ _ []), decide_True by done.
  assert (filter (λ u, User.username u = User.username row) (users db) = []) as ->;
    [|done].
  apply head_None, first_None. intros u Hu. by apply Hfresh.
Qed.

Section Accounts.
Context `{C : Config} `{J : Jose} `{B : Bcrypt}.
Context `{!JoseLaws J} `{!BcryptLaws B} `{!BcryptParses B}.

Lemma register_fresh now salt user db :
  consistent db →
  (∀ u, u ∈ users db →
        User.username u ≠ UserCreate.username user
        ∧ User.email u ≠ UserCreate.email user) →
  holds_NUL (UserCreate.username user) = false →
  holds_NUL (UserCreate.email user) = false →
  fits (UserCreate.username user) 50 → fits (UserCreate.email user) 100 →
  bcrypt_accepts (UserCreate.password user) = true →
  register now salt user db
  = (Return (to_user_response (new_user now salt user db)),
     with_users db (users db ++ [new_user now salt user db]) (users_id_seq db + 1)).
Proof.
  intros Hdb Hfresh Hn0 He0 Hn He Hp.
  unfold register, mbind, Handler_bind, query, bound, lift. cbn [existsb].
  rewrite Hn0, He0. cbn [orb].
  assert (user_by_username_or_email db (UserCreate.username user)
            (UserCreate.email user) = None) as ->.
  { apply first_None. intros u Hu [?|?]; by destruct (Hfresh u Hu). }
  unfold get_password_hash, pwd_context_hash. rewrite Hp.
  destruct (bcrypt_well_formed_stored _
              (bcrypt_hash_well_formed salt (UserCreate.password user) Hp))
    as [Hh0 Hh].
  unfold insert_user, bound. cbn [existsb]. rewrite Hn0, He0, Hh0, Hh. cbn [orb].
  unfold varchar, too_long.
  rewrite !bool_decide_eq_false_2 by (unfold fits in *; lia).
  rewrite bool_decide_eq_false_2; [done|].
  rewrite Exists_exists. intros (u & Hu & [Hid|[?|?]]).
  - apply (users_id_seq_fresh _ Hdb) in Hu. lia.
  - by destruct (Hfresh u Hu).
  - by destruct (Hfresh u Hu).
Qed.

(** Property X2.  Registering a new username and email that hold no NUL
    and fit their columns, with a password that the bcrypt handler accepts,
    stores one user row and answers with its identity; logging in with the
    same username and password on the resulting database, at a time whose
    30 minutes later is still a [datetime], returns a bearer token, and that
    token resolves to the registered row until 30 minutes after the login. *)
Theorem register_then_login now salt user db utcnow utcnow' :
  consistent db →
  (∀ u, u ∈ users db →
        User.username u ≠ UserCreate.username user
        ∧ User.email u ≠ UserCreate.email user) →
  holds_NUL (UserCreate.username user) = false →
  holds_NUL (UserCreate.email user) = false →
  fits (UserCreate.username user) 50 → fits (UserCreate.email user) 100 →
  bcrypt_accepts (UserCreate.password user) = true →
  representable (utcnow + minutes ACCESS_TOKEN_EXPIRE_MINUTES) →
  timegm utcnow' ≤ timegm (utcnow + minutes ACCESS_TOKEN_EXPIRE_MINUTES) →
  ∃ db' token,
    register now salt user db
    = (Return (to_user_response (new_user now salt user db)), db')
    ∧ users db' = users db ++ [new_user now salt user db]
    ∧ features db' = features db ∧ votes db' = votes db
    ∧ login utcnow (UserCreate.username user) (UserCreate.password user) db'
      = Return token
    ∧ Token.token_type token = "bearer"%string
    ∧ get_current_user utcnow' (Token.access_token token) db'
      = Return (new_user now salt user db).
Proof.
  intros Hdb Hfresh Hn0 He0 Hn He Hp Hrep Hexp.
  rewrite (register_fresh now salt user db Hdb Hfresh Hn0 He0 Hn He Hp).
  set (row := new_user now salt user db).
  set (db' := with_users db (users db ++ [row]) (users_id_seq db + 1)).
  assert (user_by_username db' (UserCreate.username user) = Some row) as Hrow.
  { apply (user_by_username_snoc db _ row); [|done].
    intros u Hu. by destruct (Hfresh u Hu). }
  exists db', (Token.mk (jwt_encode
                           (<["exp" := JNum (timegm
                                (utcnow + minutes ACCESS_TOKEN_EXPIRE_MINUTES))]>
                              {["sub" := JStr (UserCreate.username user)]})
                           SECRET_KEY ALGORITHM) "bearer").
  split_and!; [done|done|done|done| |done|].
  - unfold login, authenticate_user. rewrite Hn0, Hrow.
    unfold verify_password, pwd_context_verify. simpl.
    rewrite bcrypt_hash_identified, bcrypt_verify_hash by done.
    by rewrite (create_access_token_issued utcnow _
                  (Some (minutes ACCESS_TOKEN_EXPIRE_MINUTES)) Hrep).
  - unfold get_current_user, Token.access_token.
    rewrite jwt_decode_encode by (by apply validate_claims_sub_exp).
    rewrite lookup_insert_ne, lookup_singleton_eq by done.
    by rewrite Hrow.
Qed.

End Accounts.

Lemma register_Return `{B : Bcrypt} now salt user db response :
  (register now salt user db).1 = Return response →
  ∃ row,
    response = to_user_response row
    ∧ (register now salt user db).2
      = with_users db (users db ++ [row]) (users_id_seq db + 1).
Proof.
  unfold register, mbind, Handler_bind, query, bound, lift, insert_user, bound, raise.
  repeat case_match; simplify_eq/=; try done. intros [= <-]. eauto.
Qed.

(** Property X3.  Once a registration has succeeded, a registration whose
    username and email hold no NUL and that reuses the username or the email
    of the row just stored, whatever its other fields, is refused with the
    400 conflict and changes nothing. *)
Theorem register_makes_taken `{B : Bcrypt} now salt user db response
    now' salt' user' :
  (register now salt user db).1 = Return response →
  holds_NUL (UserCreate.username user') = false →
  holds_NUL (UserCreate.email user') = false →
  UserCreate.username user' = UserResponse.username response
  ∨ UserCreate.email user' = UserResponse.email response →
  register now' salt' user' (register now salt user db).2
  = (Raise already_registered, (register now salt user db).2).
Proof.
  intros (row & -> & ->)%register_Return Hn0 He0 Hsame.
  unfold register at 1. unfold mbind, Handler_bind, query, bound. cbn [existsb].
  rewrite Hn0, He0. cbn [orb].
  destruct (user_by_username_or_email _ _ _) eqn:Hq; [done|].
  unfold user_by_username_or_email in Hq. rewrite first_None in Hq.
  destruct (Hq row).
  - simpl. apply elem_of_app. right. by apply list_elem_of_singleton.
  - simpl in Hsame. destruct Hsame; auto.
Qed.

Section Login.
Context `{C : Config} `{J : Jose} `{B : Bcrypt} `{!JoseLaws J}.

(** Property X4.  A token that [login] returns belongs to the first user
    row of that username, whose stored digest verified the password; the
    token type is bearer; and until 30 minutes after the login
    [get_current_user] resolves the token to that very row. *)
Theorem login_token_resolves utcnow utcnow' username password db token :
  login utcnow username password db = Return token →
  timegm utcnow' ≤ timegm (utcnow + minutes ACCESS_TOKEN_EXPIRE_MINUTES) →
  ∃ user,
    user_by_username db username = Some user
    ∧ user ∈ users db ∧ User.username user = username
    ∧ verify_password password (User.password_hash user) = Return true
    ∧ Token.token_type token = "bearer"%string
    ∧ get_current_user utcnow' (Token.access_token token) db = Return user.
Proof.
  unfold login, authenticate_user. intros Hlogin Hexp.
  destruct (holds_NUL username); [done|].
  destruct (user_by_username db username) as [user|] eqn:Hu; [|done].
  destruct (verify_password password (User.password_hash user)) as [[]|] eqn:Hv;
    try done.
  unfold create_access_token, datetime_add in Hlogin.
  rewrite (bool_decide_eq_true_2 (_ ≠ 0)) in Hlogin by done.
  destruct (bool_decide (datetime_min ≤ _ ≤ _)); [|done].
  injection Hlogin as <-. exists user.
  pose proof (first_Some _ _ _ Hu) as [Hin Hname].
  split_and!; try done.
  unfold get_current_user, Token.access_token.
  rewrite jwt_decode_encode by (by apply validate_claims_sub_exp).
  rewrite lookup_insert_ne, lookup_singleton_eq by done.
  by rewrite Hname, Hu.
Qed.

(** Property X6.  [create_access_token] returns a token when the expiry is
    a [datetime] and ends with [OverflowError] when it is not.  A token it
    returns is refused with the 401 once the second of its expiry has
    passed, whatever its claims; a zero [expires_delta] is taken as none
    (15 minutes); a negative one of a second or more gives a token that is
    refused already at the time of issue. *)
Theorem token_expires utcnow utcnow' data expires_delta db :
  (¬ representable (expire_at utcnow expires_delta) →
   create_access_token utcnow data expires_delta = Raise OverflowError)
  ∧ (representable (expire_at utcnow expires_delta) →
     ∃ token,
       create_access_token utcnow data expires_delta = Return token
       ∧ (timegm (expire_at utcnow expires_delta) < timegm utcnow' →
          get_current_user utcnow' token db = Raise credentials_exception)
       ∧ (∀ delta, expires_delta = Some delta → delta ≤ - 1000000 →
                   get_current_user utcnow token db = Raise credentials_exception))
  ∧ create_access_token utcnow data (Some 0) = create_access_token utcnow data None.
Proof.
  split_and!; [apply create_access_token_overflow| |done].
  intros Hrep. eexists. split; [by apply create_access_token_issued|].
  assert (∀ now', timegm (expire_at utcnow expires_delta) < timegm now' →
                  get_current_user now'
                    (jwt_encode
                       (<["exp" := JNum (timegm (expire_at utcnow expires_delta))]>
                          data) SECRET_KEY ALGORITHM) db
                  = Raise credentials_exception) as Hpast.
  { intros now' Hlt. unfold get_current_user, jwt_decode.
    rewrite jws_verify_encode by (by apply list_elem_of_singleton).
    by rewrite (validate_claims_exp _ _ (timegm (expire_at utcnow expires_delta)))
      by (by rewrite ?lookup_insert_eq). }
  split; [apply Hpast|].
  intros delta -> Hdelta. apply Hpast. unfold expire_at, timegm.
  rewrite bool_decide_eq_true_2 by lia.
  apply Z.div_lt_upper_bound; [lia|].
  pose proof (Z.div_mod utcnow 1000000).
  pose proof (Z.mod_pos_bound utcnow 1000000). lia.
Qed.

End Login.

(** Property X5.  [login] with a username that holds NUL ends with the
    driver's [ValueError].  For any other username it answers the same 401
    when the username has no row and when the stored digest does not verify
    the password; a token is returned only for a stored user whose digest
    verified the password. *)
Theorem login_unauthorized `{C : Config} `{J : Jose} `{B : Bcrypt}
    utcnow username password db :
  (holds_NUL username = true →
   login utcnow username password db = Raise ValueError)
  ∧ (holds_NUL username = false →
     (user_by_username db username = None →
      login utcnow username password db = Raise incorrect_credentials)
     ∧ (∀ user, user_by_username db username = Some user →
                verify_password password (User.password_hash user) = Return false →
                login utcnow username password db = Raise incorrect_credentials))
  ∧ (∀ token, login utcnow username password db = Return token →
              ∃ user, user ∈ users db ∧ User.username user = username
                      ∧ verify_password password (User.password_hash user)
                        = Return true).
Proof.
  unfold login, authenticate_user. split_and!.
  - by intros ->.
  - intros ->. split; [by intros ->|by intros user -> ->].
  - intros token. destruct (holds_NUL username); [done|].
    destruct (user_by_username db username) as [user|] eqn:Hu; [|done].
    destruct (verify_password password (User.password_hash user)) as [[]|] eqn:Hv;
      try done.
    intros _. exists user. by apply first_Some in Hu as [? ?].
Qed.

(** ** Toggling votes *)

(** Property X7.  A toggle on a feature that does not exist answers 404 and
    writes nothing.  On a consistent database any toggle leaves the users,
    the features and the Vote rows of every other (user, feature) pair as
    they were, so no other user's vote and no other feature's vote changes. *)
Theorem vote_feature_frame now feature_id current_user db :
  consistent db →
  (feature_by_id db feature_id = None →
   vote_feature now feature_id current_user db = (Raise feature_not_found, db))
  ∧ users (vote_feature now feature_id current_user db).2 = users db
  ∧ features (vote_feature now feature_id current_user db).2 = features db
  ∧ (∀ v, vote_pair v ≠ (User.id current_user, feature_id) →
          v ∈ votes (vote_feature now feature_id current_user db).2 ↔ v ∈ votes db)
  ∧ (∀ uid fid, (uid, fid) ≠ (User.id current_user, feature_id) →
                has_voted (vote_feature now feature_id current_user db).2 uid fid
                = has_voted db uid fid).
Proof.
  intros Hdb.
  assert (∀ v, vote_pair v ≠ (User.id current_user, feature_id) →
               v ∈ votes (vote_feature now feature_id current_user db).2
               ↔ v ∈ votes db) as Hrows.
  { intros v Hp. rewrite vote_feature_phases. unfold vote_feature_select.
    destruct (feature_by_id db feature_id); [|done].
    destruct (vote_by_user_and_feature _ _ _) as [w|] eqn:Hw; simpl.
    - apply first_Some in Hw as [Hw [Hwu Hwf]].
      rewrite list_elem_of_filter. split; [tauto|]. intros Hv. split; [|done].
      intros Hid. apply Hp.
      rewrite (unique_key Vote.id (votes db) v w (votes_pkey _ Hdb) Hv Hw Hid).
      unfold vote_pair. by rewrite Hwu, Hwf.
    - unfold mbind, Handler_bind, insert_vote. destruct (_ || _); simpl; [done|].
      rewrite elem_of_app, list_elem_of_singleton. split; [|tauto].
      intros [?| ->]; [done|]. by destruct Hp. }
  split_and!; [| | |done|].
  - intros Hf. unfold vote_feature, mbind, Handler_bind, query. by rewrite Hf.
  - rewrite vote_feature_phases. unfold vote_feature_select.
    destruct (feature_by_id db feature_id); [|done].
    destruct (vote_by_user_and_feature _ _ _); simpl; [done|].
    unfold mbind, Handler_bind, insert_vote. by destruct (_ || _).
  - apply vote_feature_features.
  - intros uid fid Hp. apply eq_true_iff_eq. rewrite !has_voted_true.
    split; intros (v & Hv & Hvp); exists v; (split; [|done]);
      apply Hrows in Hv; congruence.
Qed.

(** Property X8.  After any number of toggles in a row by one user on one
    existing feature the user's vote is present exactly when it was present
    before and the number is even, or absent before and the number is odd;
    the feature's number of Vote rows moves by at most one accordingly and
    no other feature's number moves. *)
Theorem vote_feature_each_parity nows feature_id current_user db :
  consistent db → current_user ∈ users db →
  is_Some (feature_by_id db feature_id) →
  has_voted (vote_feature_each nows feature_id current_user db)
    (User.id current_user) feature_id
  = xorb (has_voted db (User.id current_user) feature_id) (Nat.odd (length nows))
  ∧ (∀ fid, fid ≠ feature_id →
            count_votes (vote_feature_each nows feature_id current_user db) fid
            = count_votes db fid)
  ∧ count_votes (vote_feature_each nows feature_id current_user db) feature_id
    = count_votes db feature_id
      + (if has_voted db (User.id current_user) feature_id
         then (if Nat.odd (length nows) then -1 else 0)
         else (if Nat.odd (length nows) then 1 else 0)).
Proof.
  revert db. induction nows as [|now nows IH]; intros db Hdb Hu Hf.
  { simpl. rewrite xorb_false_r. split_and!; [done|done|].
    destruct (has_voted _ _ _); lia. }
  destruct (vote_feature_spec now _ _ _ Hdb Hu Hf)
    as (db' & E & Hdb' & Hus & Hfs & Hv & Hc).
  assert (is_Some (feature_by_id db' feature_id)) as Hf'
    by (unfold feature_by_id; by rewrite Hfs).
  assert (current_user ∈ users db') as Hu' by (by rewrite Hus).
  destruct (IH db' Hdb' Hu' Hf') as (IHv & IHo & IHc).
  unfold vote_feature_each in *. simpl. rewrite E. simpl.
  rewrite Nat.odd_succ, <- Nat.negb_odd.
  split_and!.
  - rewrite IHv, Hv. by destruct (has_voted db _ _), (Nat.odd _).
  - intros fid Hne. rewrite (IHo fid Hne), Hc.
    rewrite decide_False by done. lia.
  - rewrite IHc, Hc, Hv, decide_True by done.
    destruct (has_voted db _ _), (Nat.odd _); simpl; lia.
Qed.

(** ** Deleting and creating features *)

Lemma feature_by_id_removed db fid seq :
  feature_by_id
    (with_features db (filter (λ g, Feature.id g ≠ fid) (features db)) seq) fid
  = None.
Proof.
  unfold feature_by_id. simpl. apply first_None.
  by intros g [Hne _]%list_elem_of_filter.
Qed.

Lemma feature_by_id_kept db fid fid' seq :
  fid' ≠ fid →
  feature_by_id
    (with_features db (filter (λ g, Feature.id g ≠ fid) (features db)) seq) fid'
  = feature_by_id db fid'.
Proof.
  intros Hne. unfold feature_by_id. simpl. rewrite list_filter_filter.
  f_equal. apply list_filter_iff. intros g. split; [tauto|].
  intros ->. done.
Qed.

(** Property X9.  [delete_feature] answers the 404 and changes nothing when
    no feature of that id belongs to the caller: when the feature does not
    exist, and when it exists and belongs to another user. *)
Theorem delete_feature_refuses feature_id current_user db :
  (∀ f, f ∈ features db → Feature.id f = feature_id →
        Feature.user_id f ≠ User.id current_user) →
  delete_feature feature_id current_user db = (Raise not_found_or_forbidden, db).
Proof.
  intros Hother. unfold delete_feature, mbind, Handler_bind, query.
  destruct (feature_by_id_and_owner db feature_id (User.id current_user))
    as [f|] eqn:Hf; [|done].
  apply first_Some in Hf as [Hin [Hid Howner]]. by destruct (Hother f Hin Hid).
Qed.

(** Property X10.  The owner's [delete_feature] of a feature without votes
    removes that feature and nothing else: users, votes and every other
    feature stay, the id no longer resolves, and from then on deleting it
    again or toggling a vote on it answers 404 and changes nothing. *)
Theorem delete_feature_removes feature_id current_user db f :
  feature_by_id_and_owner db feature_id (User.id current_user) = Some f →
  votes_of_feature db feature_id = [] →
  ∃ db',
    delete_feature feature_id current_user db
    = (Return "Feature deleted successfully"%string, db')
    ∧ users db' = users db ∧ votes db' = votes db
    ∧ feature_by_id db' feature_id = None
    ∧ (∀ fid, fid ≠ feature_id → feature_by_id db' fid = feature_by_id db fid)
    ∧ (∀ user, delete_feature feature_id user db'
               = (Raise not_found_or_forbidden, db'))
    ∧ (∀ now user, vote_feature now feature_id user db'
                   = (Raise feature_not_found, db')).
Proof.
  intros Hf Hvotes.
  pose proof (first_Some _ _ _ Hf) as [Hin [Hid Howner]].
  rewrite (delete_feature_unreferenced _ _ _ f Hf) by (by rewrite Hid).
  rewrite Hid. eexists. split_and!; [done|done|done|..].
  - apply feature_by_id_removed.
  - intros fid Hne. by apply feature_by_id_kept.
  - intros user. unfold delete_feature, mbind, Handler_bind, query.
    assert (feature_by_id_and_owner
              (with_features db
                 (filter (λ g, Feature.id g ≠ feature_id) (features db))
                 (features_id_seq db)) feature_id (User.id user) = None) as ->;
      [|done].
    apply first_None. by intros g [Hne _]%list_elem_of_filter [? _].
  - intros now user. unfold vote_feature, mbind, Handler_bind, query.
    by rewrite feature_by_id_removed.
Qed.

(** Property X11.  A toggle that has read a feature without votes and
    flushes after the owner deleted the feature is refused by the foreign
    key with [IntegrityError]: no Vote row for the deleted feature is
    stored. *)
Theorem vote_flush_after_delete now feature_id owner voter db f :
  feature_by_id_and_owner db feature_id (User.id owner) = Some f →
  votes_of_feature db feature_id = [] →
  ∃ db',
    vote_feature_select feature_id voter db
    = Return (PendingInsert (User.id voter) feature_id)
    ∧ delete_feature feature_id owner db
      = (Return "Feature deleted successfully"%string, db')
    ∧ (vote_feature_flush now (PendingInsert (User.id voter) feature_id) db').1
      = Raise IntegrityError
    ∧ votes (vote_feature_flush now (PendingInsert (User.id voter) feature_id) db').2
      = votes db
    ∧ votes_of_feature
        (vote_feature_flush now (PendingInsert (User.id voter) feature_id) db').2
        feature_id = [].
Proof.
  intros Hf Hvotes.
  pose proof (first_Some _ _ _ Hf) as [Hin [Hid Howner]].
  rewrite (delete_feature_unreferenced _ _ _ f Hf) by (by rewrite Hid).
  rewrite Hid. eexists. split_and!; [|done|..].
  - unfold vote_feature_select.
    destruct (proj2 (feature_by_id_is_Some db feature_id)) as [g ->].
    { rewrite <- Hid. by apply list_elem_of_fmap_2. }
    assert (vote_by_user_and_feature db (User.id voter) feature_id = None) as ->;
      [|done].
    apply first_None. intros v Hv [_ Hvf].
    by apply (filter_nil_not_elem_of _ _ v Hvotes).
  - simpl. unfold mbind, Handler_bind, insert_vote.
    rewrite feature_by_id_removed. simpl. by rewrite orb_true_r.
  - simpl. unfold mbind, Handler_bind, insert_vote.
    rewrite feature_by_id_removed. simpl. by rewrite orb_true_r.
  - simpl. unfold mbind, Handler_bind, insert_vote.
    rewrite feature_by_id_removed. simpl. by rewrite orb_true_r.
Qed.

(** Property X12.  On a consistent database [create_feature] by a stored
    user, with a title and a description that hold no NUL, stores what
    [String(200)] keeps of the title: the title itself when it has at most
    200 characters, and its first 200 characters when all the characters
    beyond them are spaces.  It then appends one feature with the next id of
    the sequence, owned by the caller, open, with [vote_count = 0], and
    answers with those fields and the caller's username; the new id resolves
    to the new row, every other id resolves as before, and no vote references
    the new feature.  A title that the column refuses ends with [DataError],
    and a NUL in the title or the description with [ValueError]; neither
    changes the database. *)
Theorem create_feature_fresh now feature current_user db :
  consistent db → current_user ∈ users db →
  (holds_NUL (FeatureCreate.title feature) = true
   ∨ holds_NUL (FeatureCreate.description feature) = true →
   create_feature now feature current_user db = (Raise ValueError, db))
  ∧ (holds_NUL (FeatureCreate.title feature) = false →
     holds_NUL (FeatureCreate.description feature) = false →
     (varchar 200 (FeatureCreate.title feature) = None →
      create_feature now feature current_user db = (Raise DataError, db))
     ∧ (∀ title, varchar 200 (FeatureCreate.title feature) = Some title →
        ∃ db',
          create_feature now feature current_user db
          = (Return (FeatureResponse.mk
                       (features_id_seq db) title
                       (FeatureCreate.description feature) (User.id current_user)
                       (User.username current_user) 0 status_open now false), db')
          ∧ features db'
            = features db
              ++ [new_feature now
                    (FeatureCreate.mk title (FeatureCreate.description feature))
                    current_user db]
          ∧ users db' = users db ∧ votes db' = votes db
          ∧ feature_by_id db' (features_id_seq db)
            = Some (new_feature now
                      (FeatureCreate.mk title (FeatureCreate.description feature))
                      current_user db)
          ∧ (∀ fid, fid ≠ features_id_seq db →
                    feature_by_id db' fid = feature_by_id db fid)
          ∧ count_votes db' (features_id_seq db) = 0))
  ∧ (fits (FeatureCreate.title feature) 200 →
     varchar 200 (FeatureCreate.title feature) = Some (FeatureCreate.title feature)).
Proof.
  intros Hdb Hu. unfold create_feature, mbind, Handler_bind, insert_feature, bound.
  cbn [existsb]. split_and!.
  - intros [-> | ->]; by rewrite ?orb_true_r.
  - intros -> ->. cbn [orb]. split; [by intros ->|]. intros title ->.
    rewrite (bool_decide_eq_false_2 (Exists _ _)).
    2:{ rewrite Exists_exists. intros (g & Hg & Hid).
        apply (features_id_seq_fresh _ Hdb) in Hg. lia. }
    rewrite (bool_decide_eq_true_2 (is_Some _)) by (by apply user_row_id).
    simpl.
    fold (new_feature now (FeatureCreate.mk title (FeatureCreate.description feature))
            current_user db).
    assert (∀ g, g ∈ features db → Feature.id g ≠ features_id_seq db) as Hfresh.
    { intros g Hg%(features_id_seq_fresh _ Hdb). lia. }
    eexists. split_and!; [done|done|done|done|..].
    + unfold feature_by_id. simpl.
      rewrite filter_app, (filter_singleton _ _ []), decide_True by done.
      assert (filter (λ g, Feature.id g = features_id_seq db) (features db) = [])
        as ->; [|done].
      by apply head_None, first_None.
    + intros fid Hne. unfold feature_by_id. simpl.
      rewrite filter_app, (filter_singleton _ _ []), decide_False, app_nil_r; [done|].
      simpl. congruence.
    + unfold count_votes, votes_of_feature. simpl.
      assert (filter (λ v, Vote.feature_id v = features_id_seq db) (votes db) = [])
        as ->; [|done].
      apply head_None, first_None. intros v Hv Hid.
      apply (votes_feature_id_fkey _ Hdb) in Hv.
      apply list_elem_of_fmap in Hv as (g & Hgid & Hg).
      apply (Hfresh g Hg). congruence.
  - intros Hfits. unfold varchar, too_long.
    by rewrite bool_decide_eq_false_2 by (unfold fits in Hfits; lia).
Qed.

(** ** Listing features *)

Lemma format_feature_row db f r :
  format_feature db None f = Some r →
  ∃ owner,
    user_by_id db (Feature.user_id f) = Some owner
    ∧ r = FeatureResponse.mk (Feature.id f) (Feature.title f)
            (Feature.description f) (Feature.user_id f) (User.username owner)
            (Feature.vote_count f) (Feature.status f) (Feature.created_at f) false.
Proof.
  unfold format_feature. destruct (user_by_id db (Feature.user_id f)) as [owner|];
    simpl; [|done].
  intros [= <-]. by exists owner.
Qed.

(** Property X13.  Whatever the arguments and whoever voted, no entry that
    [get_features] returns has [user_voted = true]. *)
Theorem get_features_never_user_voted `{E : SqlEngine} skip limit sort_by db response :
  get_features skip limit sort_by db = Return response →
  ∀ r, r ∈ response → FeatureResponse.user_voted r = false.
Proof.
  unfold get_features. destruct (offset_limit _ _ _) as [page|]; [|done].
  destruct (mapM _ page) as [rs|] eqn:Hm; [|done]. intros [= <-].
  apply mapM_Some in Hm. induction Hm as [|f r page rs Hfr Hm IH].
  - by intros r ?%elem_of_nil.
  - intros r' [->|Hr']%elem_of_cons; [|by apply IH].
    by apply format_feature_row in Hfr as (owner & _ & ->).
Qed.

Section Pages.
Context `{E : SqlEngine} `{!SqlEngineLaws E}.

(** The rows [get_features] sorts. *)
Lemma get_features_rows skip limit sort_by db :
  ∃ key,
    key = (if bool_decide (sort_by = "votes"%string)
           then Feature.vote_count else Feature.created_at)
    ∧ get_features skip limit sort_by db
      = match offset_limit skip limit (order_by_desc key (features db)) with
        | Raise e => Raise e
        | Return page =>
            match mapM (format_feature db None) page with
            | Some response => Return response
            | None => Raise AttributeError
            end
        end.
Proof.
  eexists. split; [done|]. unfold get_features. by destruct (bool_decide _).
Qed.

(** Property X14.  On a consistent database and for an offset and a limit
    within bigint (from 0 to [2^63 - 1]), [get_features] with any sort key
    returns min(limit, number of features - skip) entries with pairwise
    different ids, each a copy of a stored feature with the username of its
    owner; an offset or a limit outside bigint, negative or beyond
    [2^63 - 1], ends with [DataError]. *)
Theorem get_features_page skip limit sort_by db :
  consistent db →
  (0 ≤ skip ≤ bigint_max → 0 ≤ limit ≤ bigint_max →
   ∃ response,
     get_features skip limit sort_by db = Return response
     ∧ length response
       = (Z.to_nat limit `min` (length (features db) - Z.to_nat skip))%nat
     ∧ NoDup (FeatureResponse.id <$> response)
     ∧ ∀ r, r ∈ response →
            ∃ f owner,
              f ∈ features db ∧ owner ∈ users db
              ∧ User.id owner = Feature.user_id f
              ∧ r = FeatureResponse.mk (Feature.id f) (Feature.title f)
                      (Feature.description f) (Feature.user_id f)
                      (User.username owner) (Feature.vote_count f)
                      (Feature.status f) (Feature.created_at f) false)
  ∧ (skip < 0 ∨ limit < 0 ∨ bigint_max < skip ∨ bigint_max < limit →
     get_features skip limit sort_by db = Raise DataError).
Proof.
  intros Hdb. destruct (get_features_rows skip limit sort_by db) as (key & _ & ->).
  pose proof (order_by_desc_perm key (features db)) as Hperm.
  set (rows := order_by_desc key (features db)) in *.
  unfold offset_limit. split.
  - intros Hskip Hlimit. rewrite bool_decide_eq_true_2 by done.
    set (page := take (Z.to_nat limit) (drop (Z.to_nat skip) rows)).
    assert (page `sublist_of` rows) as Hsub.
    { etrans; [apply sublist_take|apply sublist_drop]. }
    assert (∀ f, f ∈ page → f ∈ features db) as Hpage.
    { intros f Hf. rewrite <- Hperm. by eapply elem_of_sublist. }
    assert (is_Some (mapM (format_feature db None) page)) as [response Hm].
    { apply mapM_is_Some, Forall_forall. intros f Hf. simpl.
      apply format_feature_is_Some; auto. }
    exists response. rewrite Hm. split; [done|].
    apply mapM_Some in Hm. pose proof (Forall2_length _ _ _ Hm) as Hlen.
    split_and!.
    + rewrite <- Hlen. unfold page. rewrite length_take, length_drop.
      by rewrite Hperm.
    + assert (FeatureResponse.id <$> response = Feature.id <$> page) as ->.
      { clear Hlen Hsub Hpage. induction Hm as [|f r p rs Hfr Hm IH]; [done|].
        rewrite !fmap_cons, IH. f_equal.
        by apply format_feature_row in Hfr as (owner & _ & ->). }
      apply (sublist_NoDup _ (Feature.id <$> rows));
        [|by apply fmap_sublist].
      rewrite Hperm. apply Hdb.
    + intros r Hr.
      assert (∃ f, f ∈ page ∧ format_feature db None f = Some r) as (f & Hf & Hfr).
      { clear Hlen Hsub Hpage. induction Hm as [|f r' p rs Hfr Hm IH];
          [by apply elem_of_nil in Hr|].
        apply elem_of_cons in Hr as [->|Hr].
        - exists f. split; [by left|done].
        - destruct (IH Hr) as (g & Hg & Hgr). exists g. split; [by right|done]. }
      apply format_feature_row in Hfr as (owner & Ho & ->).
      apply first_Some in Ho as [Hoin Hoid]. exists f, owner. auto.
  - intros Hout. rewrite bool_decide_eq_false_2; [done|lia].
Qed.

(** Property X15.  With any sort key other than "votes", and an offset
    and a limit within bigint, [get_features] returns a page of the features
    ordered by non-increasing creation time; offset and limit cut the page
    out of the sorted rows. *)
Theorem get_features_by_recency skip limit sort_by db :
  consistent db → sort_by ≠ "votes"%string →
  0 ≤ skip ≤ bigint_max → 0 ≤ limit ≤ bigint_max →
  ∃ rows response,
    rows ≡ₚ features db
    ∧ StronglySorted (desc Feature.created_at) rows
    ∧ get_features skip limit sort_by db = Return response
    ∧ FeatureResponse.id <$> response
      = Feature.id <$> take (Z.to_nat limit) (drop (Z.to_nat skip) rows)
    ∧ StronglySorted by_recency response.
Proof.
  intros Hdb Hsort Hskip Hlimit.
  destruct (get_features_rows skip limit sort_by db) as (key & Hkey & ->).
  rewrite bool_decide_eq_false_2 in Hkey by done. subst key.
  pose proof (order_by_desc_perm Feature.created_at (features db)) as Hperm.
  pose proof (order_by_desc_sorted Feature.created_at (features db)) as Hsorted.
  set (rows := order_by_desc Feature.created_at (features db)) in *.
  exists rows. unfold offset_limit. rewrite bool_decide_eq_true_2 by done.
  set (page := take (Z.to_nat limit) (drop (Z.to_nat skip) rows)).
  assert (page `sublist_of` rows) as Hsub.
  { etrans; [apply sublist_take|apply sublist_drop]. }
  assert (is_Some (mapM (format_feature db None) page)) as [response Hm].
  { apply mapM_is_Some, Forall_forall. intros f Hf. simpl.
    apply format_feature_is_Some; [done|]. rewrite <- Hperm.
    by eapply elem_of_sublist. }
  assert (StronglySorted (desc Feature.created_at) page) as Hpage
    by (by apply (StronglySorted_sublist _ rows)).
  exists response. rewrite Hm. split_and!; try done.
  - apply mapM_Some in Hm. clear Hpage Hsub.
    induction Hm as [|f r p rs Hfr Hm IH]; [done|].
    rewrite !fmap_cons, IH. f_equal.
    by apply format_feature_row in Hfr as (owner & _ & ->).
  - apply mapM_Some in Hm. clear Hsub.
    induction Hm as [|f r p rs Hfr Hm IH]; [constructor|].
    apply StronglySorted_inv in Hpage as [Hs Hall].
    constructor; [by apply IH|].
    apply format_feature_row in Hfr as (owner & _ & ->).
    clear IH Hs. induction Hm as [|g q p rs Hgq Hm IH]; [constructor|].
    apply Forall_cons in Hall as [Hg Hall].
    apply format_feature_row in Hgq as (owner' & _ & ->).
    constructor; [|by apply IH]. done.
Qed.

End Pages.

(** Property X16.  In every state the endpoints reach, every stored
    [password_hash] carries a bcrypt identifier, so [verify_password] against
    a stored digest answers what the bcrypt handler answers and never raises
    [UnknownHashError]. *)
Theorem reachable_digests_identified `{B : Bcrypt} `{!BcryptLaws B} db :
  reachable db →
  ∀ u, u ∈ users db →
       bcrypt_identify (User.password_hash u) = true
       ∧ ∀ password,
           verify_password password (User.password_hash u)
           = bcrypt_verify password (User.password_hash u).
Proof.
  intros Hdb u Hu.
  destruct (reachable_password_hash db Hdb u Hu) as (salt & pw & digest & Hd & Hh).
  unfold get_password_hash, pwd_context_hash in Hd.
  destruct (bcrypt_accepts pw) eqn:Hok; [|done]. injection Hd as <-.
  unfold verify_password, pwd_context_verify.
  rewrite (varchar_identify _ _ Hh), bcrypt_hash_identified by done. done.
Qed.

(** Property X17.  In every state the endpoints reach, every entry that
    [get_features] returns displays [vote_count = 0], whatever votes were
    cast. *)
Theorem get_features_displays_zero `{B : Bcrypt} `{E : SqlEngine}
    `{!SqlEngineLaws E} skip limit sort_by db response :
  reachable db →
  get_features skip limit sort_by db = Return response →
  ∀ r, r ∈ response → FeatureResponse.vote_count r = 0.
Proof.
  intros Hdb. destruct (get_features_rows skip limit sort_by db) as (key & _ & ->).
  pose proof (order_by_desc_perm key (features db)) as Hperm.
  set (rows := order_by_desc key (features db)) in *.
  unfold offset_limit. destruct (bool_decide _); [|done].
  set (page := take (Z.to_nat limit) (drop (Z.to_nat skip) rows)).
  assert (∀ f, f ∈ page → f ∈ features db) as Hpage.
  { intros f Hf. rewrite <- Hperm. eapply elem_of_sublist; [done|].
    etrans; [apply sublist_take|apply sublist_drop]. }
  destruct (mapM _ page) as [rs|] eqn:Hm; [|done]. intros [= <-].
  apply mapM_Some in Hm. induction Hm as [|f r p rs Hfr Hm IH].
  - by intros r ?%elem_of_nil.
  - intros r' [->|Hr']%elem_of_cons.
    + apply format_feature_row in Hfr as (owner & _ & ->). simpl.
      apply (reachable_vote_count db Hdb). apply Hpage. by left.
    + apply IH; [|done]. intros g Hg. apply Hpage. by right.
Qed.

(** ** The further properties at the scenario *)


Lemma carol_is_new u :
  u ∈ users Scenario.db4 →
  User.username u ≠ UserCreate.username carol ∧ User.email u ≠ UserCreate.email carol.
Proof.
  revert u.
  apply (proj1 (Forall_forall
                  (λ u, User.username u ≠ UserCreate.username carol
                        ∧ User.email u ≠ UserCreate.email carol)
                  (users Scenario.db4))).
  apply (bool_decide_unpack _). by vm_compute.
Qed.

Lemma reachable_digests_identified_witness :
  BcryptLaws Reference.bcrypt
  ∧ reachable (B := Reference.bcrypt) Scenario.db5
  ∧ ∀ u, u ∈ users Scenario.db5 → bcrypt_identify (User.password_hash u) = true.
Proof.
  split_and!; [apply bcrypt_laws|apply db5_reachable|].
  intros u Hu.
  apply (reachable_digests_identified (B := Reference.bcrypt) Scenario.db5
           db5_reachable u Hu).
Defined.

Lemma register_then_login_witness :
  JoseLaws Reference.jose ∧ BcryptLaws Reference.bcrypt
  ∧ consistent Scenario.db4
  ∧ holds_NUL (UserCreate.username carol) = false
  ∧ holds_NUL (UserCreate.email carol) = false
  ∧ fits (UserCreate.username carol) 50
  ∧ fits (UserCreate.email carol) 100
  ∧ bcrypt_accepts (UserCreate.password carol) = true
  ∧ representable (0 + minutes ACCESS_TOKEN_EXPIRE_MINUTES)
  ∧ timegm 60000000 ≤ timegm (0 + minutes ACCESS_TOKEN_EXPIRE_MINUTES)
  ∧ ∃ db' token,
      register (B := Reference.bcrypt) 7000 "salt" carol Scenario.db4
      = (Return (to_user_response
                   (new_user (B := Reference.bcrypt) 7000 "salt" carol Scenario.db4)),
         db')
      ∧ login (C := Reference.config) (J := Reference.jose) (B := Reference.bcrypt)
          0 (UserCreate.username carol) (UserCreate.password carol) db'
        = Return token
      ∧ get_current_user (C := Reference.config) (J := Reference.jose) 60000000
          (Token.access_token token) db'
        = Return (new_user (B := Reference.bcrypt) 7000 "salt" carol Scenario.db4).
Proof.
  assert (fits (UserCreate.username carol) 50) as Hn by (vm_compute; lia).
  assert (fits (UserCreate.email carol) 100) as He by (vm_compute; lia).
  assert (representable (0 + minutes ACCESS_TOKEN_EXPIRE_MINUTES)) as Hrep
    by (split; by vm_compute).
  assert (timegm 60000000 ≤ timegm (0 + minutes ACCESS_TOKEN_EXPIRE_MINUTES)) as Hexp
    by (by vm_compute).
  split_and!; [apply jose_laws|apply bcrypt_laws|apply db4_consistent
              |reflexivity|reflexivity|exact Hn|exact He|reflexivity
              |exact Hrep|exact Hexp|].
  destruct (register_then_login (C := Reference.config) (J := Reference.jose)
              (B := Reference.bcrypt) 7000 "salt" carol Scenario.db4 0 60000000
              db4_consistent carol_is_new eq_refl eq_refl Hn He eq_refl Hrep Hexp)
    as (db' & token & E1 & _ & _ & _ & E2 & _ & E3).
  exists db', token. split_and!; [exact E1|exact E2|exact E3].
Defined.

Lemma register_makes_taken_witness :
  (register (B := Reference.bcrypt) 7000 "salt" carol Scenario.db4).1
  = Return (to_user_response
              (new_user (B := Reference.bcrypt) 7000 "salt" carol Scenario.db4))
  ∧ holds_NUL "carol" = false ∧ holds_NUL "other@example.com" = false
  ∧ register (B := Reference.bcrypt) 8000 "pepper"
      (UserCreate.mk "carol" "other@example.com" "secret")
      (register (B := Reference.bcrypt) 7000 "salt" carol Scenario.db4).2
    = (Raise already_registered,
       (register (B := Reference.bcrypt) 7000 "salt" carol Scenario.db4).2).
Proof.
  assert ((register (B := Reference.bcrypt) 7000 "salt" carol Scenario.db4).1
          = Return (to_user_response
                      (new_user (B := Reference.bcrypt) 7000 "salt" carol
                         Scenario.db4))) as Hok by reflexivity.
  split_and!; [exact Hok|reflexivity|reflexivity|].
  apply (register_makes_taken (B := Reference.bcrypt) 7000 "salt" carol Scenario.db4
           _ 8000 "pepper" (UserCreate.mk "carol" "other@example.com" "secret") Hok
           eq_refl eq_refl).
  left. reflexivity.
Defined.

Lemma login_unauthorized_witness :
  holds_NUL "dave" = false
  ∧ user_by_username Scenario.db4 "dave" = None
  ∧ login (C := Reference.config) (J := Reference.jose) (B := Reference.bcrypt)
      0 "dave" "secret" Scenario.db4
    = Raise incorrect_credentials.
Proof.
  split_and!; [reflexivity|reflexivity|].
  destruct (login_unauthorized (C := Reference.config) (J := Reference.jose)
              (B := Reference.bcrypt) 0 "dave" "secret" Scenario.db4)
    as (_ & Hbound & _).
  destruct (Hbound eq_refl) as [Hunknown _]. exact (Hunknown eq_refl).
Defined.

Lemma login_token_resolves_witness :
  JoseLaws Reference.jose
  ∧ login (C := Reference.config) (J := Reference.jose) (B := Reference.bcrypt)
      0 "alice" "wonderland" Scenario.db4 = Return alice_token
  ∧ timegm 60000000 ≤ timegm (0 + minutes ACCESS_TOKEN_EXPIRE_MINUTES)
  ∧ ∃ user,
      user_by_username Scenario.db4 "alice" = Some user
      ∧ get_current_user (C := Reference.config) (J := Reference.jose) 60000000
          (Token.access_token alice_token) Scenario.db4 = Return user.
Proof.
  assert (login (C := Reference.config) (J := Reference.jose) (B := Reference.bcrypt)
            0 "alice" "wonderland" Scenario.db4 = Return alice_token) as Hlogin
    by reflexivity.
  assert (timegm 60000000 ≤ timegm (0 + minutes ACCESS_TOKEN_EXPIRE_MINUTES)) as Hexp
    by done.
  split_and!; [apply jose_laws|done|done|].
  destruct (login_token_resolves (C := Reference.config) (J := Reference.jose)
              (B := Reference.bcrypt) 0 60000000 "alice" "wonderland" Scenario.db4
              alice_token Hlogin Hexp) as (user & Hu & _ & _ & _ & _ & Hres).
  exists user. split; [exact Hu|exact Hres].
Defined.

Lemma token_expires_witness :
  JoseLaws Reference.jose
  ∧ representable (expire_at 0 (Some (minutes 30)))
  ∧ timegm (expire_at 0 (Some (minutes 30))) < timegm (minutes 31)
  ∧ ∃ token,
      create_access_token (C := Reference.config) (J := Reference.jose) 0
        {["sub" := JStr "alice"]} (Some (minutes 30))
      = Return token
      ∧ get_current_user (C := Reference.config) (J := Reference.jose) (minutes 31)
          token Scenario.db4
        = Raise credentials_exception.
Proof.
  assert (representable (expire_at 0 (Some (minutes 30)))) as Hrep
    by (split; by vm_compute).
  assert (timegm (expire_at 0 (Some (minutes 30))) < timegm (minutes 31)) as Hpast
    by done.
  split_and!; [apply jose_laws|exact Hrep|exact Hpast|].
  destruct (token_expires (C := Reference.config) (J := Reference.jose) 0 (minutes 31)
              {["sub" := JStr "alice"]} (Some (minutes 30)) Scenario.db4)
    as (_ & Hissued & _).
  destruct (Hissued Hrep) as (token & Etoken & Hrefused & _).
  exists token. split; [exact Etoken|exact (Hrefused Hpast)].
Defined.

Lemma vote_feature_frame_witness :
  consistent Scenario.db5
  ∧ has_voted (vote_feature 6000 1 bob_row Scenario.db5).2 1 2
    = has_voted Scenario.db5 1 2.
Proof.
  split; [apply db5_consistent|].
  by apply (vote_feature_frame 6000 1 bob_row Scenario.db5 db5_consistent).
Defined.

Lemma vote_feature_each_parity_witness :
  consistent Scenario.db4
  ∧ Scenario.alice_row ∈ users Scenario.db4
  ∧ is_Some (feature_by_id Scenario.db4 1)
  ∧ has_voted (vote_feature_each [5000; 6000; 7000] 1 Scenario.alice_row Scenario.db4)
      (User.id Scenario.alice_row) 1
    = xorb (has_voted Scenario.db4 (User.id Scenario.alice_row) 1)
           (Nat.odd (length [5000; 6000; 7000])).
Proof.
  split_and!; [apply db4_consistent|apply alice_known|apply F1_exists|].
  apply (vote_feature_each_parity [5000; 6000; 7000] 1 Scenario.alice_row Scenario.db4
           db4_consistent alice_known F1_exists).
Defined.

Lemma bob_owns_nothing f :
  f ∈ features Scenario.db4 → Feature.id f = 1 → Feature.user_id f ≠ User.id bob_row.
Proof.
  revert f.
  apply (proj1 (Forall_forall
                  (λ f, Feature.id f = 1 → Feature.user_id f ≠ User.id bob_row)
                  (features Scenario.db4))).
  apply (bool_decide_unpack _). by vm_compute.
Qed.

Lemma delete_feature_refuses_witness :
  (∀ f, f ∈ features Scenario.db4 → Feature.id f = 1 →
        Feature.user_id f ≠ User.id bob_row)
  ∧ delete_feature 1 bob_row Scenario.db4
    = (Raise not_found_or_forbidden, Scenario.db4).
Proof.
  split; [apply bob_owns_nothing|].
  apply (delete_feature_refuses 1 bob_row Scenario.db4 bob_owns_nothing).
Defined.

Lemma F1_owned_by_alice :
  feature_by_id_and_owner Scenario.db5 1 (User.id Scenario.alice_row) = Some F1_row.
Proof. reflexivity. Qed.

Lemma F1_has_no_votes : votes_of_feature Scenario.db5 1 = [].
Proof. reflexivity. Qed.

Lemma delete_feature_removes_witness :
  feature_by_id_and_owner Scenario.db5 1 (User.id Scenario.alice_row) = Some F1_row
  ∧ votes_of_feature Scenario.db5 1 = []
  ∧ ∃ db',
      delete_feature 1 Scenario.alice_row Scenario.db5
      = (Return "Feature deleted successfully"%string, db')
      ∧ feature_by_id db' 1 = None.
Proof.
  split_and!; [apply F1_owned_by_alice|apply F1_has_no_votes|].
  destruct (delete_feature_removes 1 Scenario.alice_row Scenario.db5 F1_row
              F1_owned_by_alice F1_has_no_votes) as (db' & E & _ & _ & Hgone & _).
  exists db'. split; [exact E|exact Hgone].
Defined.

Lemma vote_flush_after_delete_witness :
  feature_by_id_and_owner Scenario.db5 1 (User.id Scenario.alice_row) = Some F1_row
  ∧ votes_of_feature Scenario.db5 1 = []
  ∧ ∃ db',
      delete_feature 1 Scenario.alice_row Scenario.db5
      = (Return "Feature deleted successfully"%string, db')
      ∧ (vote_feature_flush 6000 (PendingInsert (User.id bob_row) 1) db').1
        = Raise IntegrityError.
Proof.
  split_and!; [apply F1_owned_by_alice|apply F1_has_no_votes|].
  destruct (vote_flush_after_delete 6000 1 Scenario.alice_row bob_row Scenario.db5
              F1_row F1_owned_by_alice F1_has_no_votes)
    as (db' & _ & E & Hraise & _).
  exists db'. split; [exact E|exact Hraise].
Defined.

Lemma create_feature_fresh_witness :
  consistent Scenario.db4
  ∧ Scenario.alice_row ∈ users Scenario.db4
  ∧ holds_NUL padded_title = false ∧ holds_NUL "third" = false
  ∧ characters padded_title = 201%nat
  ∧ varchar 200 padded_title = Some (Reference.fill 200 "")
  ∧ ∃ db',
      features db'
      = features Scenario.db4
        ++ [new_feature 9000 (FeatureCreate.mk (Reference.fill 200 "") "third")
              Scenario.alice_row Scenario.db4]
      ∧ count_votes db' (features_id_seq Scenario.db4) = 0.
Proof.
  assert (varchar 200 padded_title = Some (Reference.fill 200 "")) as Hstored
    by (vm_compute; reflexivity).
  split_and!; [apply db4_consistent|apply alice_known
              |vm_compute; reflexivity|reflexivity|vm_compute; reflexivity
              |exact Hstored|].
  destruct (create_feature_fresh 9000 (FeatureCreate.mk padded_title "third")
              Scenario.alice_row Scenario.db4 db4_consistent alice_known)
    as (_ & Hbound & _).
  destruct (Hbound ltac:(vm_compute; reflexivity) eq_refl) as [_ Hkept].
  destruct (Hkept _ Hstored) as (db' & _ & Hfs & _ & _ & _ & _ & Hcount).
  exists db'. split; [exact Hfs|exact Hcount].
Defined.

Lemma listing_of_db5 :
  get_features (E := Reference.sql_engine) 0 100 "votes" Scenario.db5
  = Return [Scenario.F1_response; Scenario.F2_response].
Proof. by vm_compute. Qed.

Lemma get_features_never_user_voted_witness :
  get_features (E := Reference.sql_engine) 0 100 "votes" Scenario.db5
  = Return [Scenario.F1_response; Scenario.F2_response]
  ∧ has_voted Scenario.db5 1 2 = true
  ∧ ∀ r, r ∈ [Scenario.F1_response; Scenario.F2_response] →
         FeatureResponse.user_voted r = false.
Proof.
  split_and!; [apply listing_of_db5|done|].
  apply (get_features_never_user_voted (E := Reference.sql_engine) 0 100 "votes"
           Scenario.db5 _ listing_of_db5).
Defined.

Lemma get_features_displays_zero_witness :
  SqlEngineLaws Reference.sql_engine
  ∧ reachable (B := Reference.bcrypt) Scenario.db5
  ∧ get_features (E := Reference.sql_engine) 0 100 "votes" Scenario.db5
    = Return [Scenario.F1_response; Scenario.F2_response]
  ∧ ∀ r, r ∈ [Scenario.F1_response; Scenario.F2_response] →
         FeatureResponse.vote_count r = 0.
Proof.
  split_and!; [apply sql_engine_laws|apply db5_reachable|apply listing_of_db5|].
  apply (get_features_displays_zero (B := Reference.bcrypt)
           (E := Reference.sql_engine) 0 100 "votes" Scenario.db5 _
           db5_reachable listing_of_db5).
Defined.

Lemma get_features_page_witness :
  SqlEngineLaws Reference.sql_engine
  ∧ consistent Scenario.db5
  ∧ 0 ≤ 1 ≤ bigint_max ∧ 0 ≤ 5 ≤ bigint_max
  ∧ ∃ response,
      get_features (E := Reference.sql_engine) 1 5 "recent" Scenario.db5
      = Return response
      ∧ length response
        = (Z.to_nat 5 `min` (length (features Scenario.db5) - Z.to_nat 1))%nat.
Proof.
  assert (0 ≤ 1 ≤ bigint_max) as Hskip by (split; by vm_compute).
  assert (0 ≤ 5 ≤ bigint_max) as Hlimit by (split; by vm_compute).
  refine (conj sql_engine_laws (conj db5_consistent (conj Hskip (conj Hlimit _)))).
  destruct (get_features_page (E := Reference.sql_engine) 1 5 "recent" Scenario.db5
              db5_consistent) as [Hpage _].
  destruct (Hpage Hskip Hlimit) as (response & E & Hlen & _).
  exists response. split; [exact E|exact Hlen].
Defined.

Lemma get_features_by_recency_witness :
  SqlEngineLaws Reference.sql_engine
  ∧ consistent Scenario.db5 ∧ "recent"%string ≠ "votes"%string
  ∧ 0 ≤ 0 ≤ bigint_max ∧ 0 ≤ 10 ≤ bigint_max
  ∧ ∃ response,
      get_features (E := Reference.sql_engine) 0 10 "recent" Scenario.db5
      = Return response
      ∧ StronglySorted by_recency response.
Proof.
  assert ("recent"%string ≠ "votes"%string) as Hsort by done.
  assert (0 ≤ 0 ≤ bigint_max) as Hskip by (split; by vm_compute).
  assert (0 ≤ 10 ≤ bigint_max) as Hlimit by (split; by vm_compute).
  refine (conj sql_engine_laws (conj db5_consistent (conj Hsort
            (conj Hskip (conj Hlimit _))))).
  destruct (get_features_by_recency (E := Reference.sql_engine) 0 10 "recent"
              Scenario.db5 db5_consistent Hsort Hskip Hlimit)
    as (rows & response & _ & _ & E & _ & Hs).
  exists response. split; [exact E|exact Hs].
Defined.
